(** * Watermarking tool: the endpoint of [server.js] and the service
    module [watermarkService] it calls (the module's text is the last
    part of [src/src/App.jsx])

    A shallow embedding of the upload endpoint, the per-phrase overlay
    builder, the sequential orchestrator and the packager, with the
    third-party collaborators (PDF parser, remote compositor, archiver)
    taken as parameters. *)

From Stdlib Require Import PrimFloat.
From Stdlib Require Import ZArith NArith List String Ascii Bool Lia.
From Stdlib Require SpecFloat FloatOps.
From stdpp Require Import base option list gmap.

Local Open Scope N_scope.

(** ** JavaScript strings

    A JavaScript string is a sequence of UTF-16 code units; the regular
    expressions of the source carry no [u] flag, so they work on code
    units as well. *)

Abbreviation jsstring := (list N).

(** Literals of the source, all ASCII, are written [str "..."]. *)
Fixpoint str (s : string) : jsstring :=
  match s with
  | EmptyString => []
  | String a r => N_of_ascii a :: str r
  end.
Arguments str : simpl never.

Definition in_range (lo hi c : N) : bool := (lo <=? c) && (c <=? hi).

(** The class [\s] of a regular expression, which is also the set that
    [String.prototype.trim] strips: WhiteSpace and LineTerminator of
    ECMA-262. *)
Definition is_space (c : N) : bool :=
  in_range 9 13 c || (c =? 32) || (c =? 160) || (c =? 5760)
  || in_range 8192 8202 c || (c =? 8232) || (c =? 8233) || (c =? 8239)
  || (c =? 8287) || (c =? 12288) || (c =? 65279).

(** The class [a-zA-Z0-9]. *)
Definition is_alnum (c : N) : bool :=
  in_range 97 122 c || in_range 65 90 c || in_range 48 57 c.

Definition underscore : N := 95.
Definition comma : N := 44.
Definition slash : N := 47.

(** [s.replace(/[^a-zA-Z0-9\s]/g, '')]: every code unit outside the class
    is deleted. *)
Definition strip_unsafe (s : jsstring) : jsstring :=
  List.filter (fun c => is_alnum c || is_space c) s.

(** [s.replace(/\s+/g, '_')]: every maximal run of white space becomes one
    underscore. [in_run] tells that the previous code unit was white space
    (the run's underscore is already out). *)
Fixpoint collapse_spaces (in_run : bool) (s : jsstring) : jsstring :=
  match s with
  | [] => []
  | c :: r =>
      if is_space c
      then (if in_run then collapse_spaces true r
            else underscore :: collapse_spaces true r)
      else c :: collapse_spaces false r
  end.

(** [text.replace(/[^a-zA-Z0-9\s]/g, '').replace(/\s+/g, '_')] of
    [processMultipleWatermarks]. *)
Definition sanitize (text : jsstring) : jsstring :=
  collapse_spaces false (strip_unsafe text).

(** [String.prototype.trim]. *)
Fixpoint trimStart (s : jsstring) : jsstring :=
  match s with
  | [] => []
  | c :: r => if is_space c then trimStart r else s
  end.

Definition trimEnd (s : jsstring) : jsstring := rev (trimStart (rev s)).

Definition trim (s : jsstring) : jsstring := trimEnd (trimStart s).

(** [s.split(sep)] for a one-unit separator: never the empty list. *)
Fixpoint split (sep : N) (s : jsstring) : list jsstring :=
  match s with
  | [] => [[]]
  | c :: r =>
      if c =? sep then [] :: split sep r
      else match split sep r with
           | [] => [[c]]
           | h :: t => (c :: h) :: t
           end
  end.

Fixpoint starts_with (pre s : jsstring) : bool :=
  match pre, s with
  | [], _ => true
  | _ :: _, [] => false
  | a :: pre', b :: s' => (a =? b) && starts_with pre' s'
  end.

(** A string without white space. *)
Definition no_space (s : jsstring) : Prop := Forall (fun c => is_space c = false) s.

(** A string that does not start with white space. *)
Definition head_ok (s : jsstring) : Prop :=
  match s with
  | [] => True
  | c :: _ => is_space c = false
  end.

(** ** JavaScript numbers

    A Number is an IEEE 754 binary64 value: the kernel's primitive floats. *)

Abbreviation number := PrimFloat.float.

(** [ToBoolean] of a Number: false on [+0], [-0] and [NaN]. *)
Definition falsy (x : number) : bool := PrimFloat.is_zero x || PrimFloat.is_nan x.

(** [x || d] on Numbers. *)
Definition or_else (x d : number) : number := if falsy x then d else x.

(** The Number nearest to a signed integer (ties to even); a zero keeps the
    sign asked for. *)
Definition number_of_int (negative : bool) (m : N) : number :=
  FloatOps.SF2Prim
    (SpecFloat.binary_normalize FloatOps.prec FloatOps.emax
       (if negative then Z.opp (Z.of_N m) else Z.of_N m) 0 negative).

(** The Number nearest to [m * 10 ^ e10], [digits] being the number of
    decimal digits [m] was read from. Beyond 400 decimal orders of
    magnitude the result is an infinity or a zero whatever [m] is. *)
Definition number_of_decimal (negative : bool) (m : N) (digits : nat) (e10 : Z)
  : number :=
  match m with
  | N0 => if negative then PrimFloat.neg_zero else PrimFloat.zero
  | Npos pm =>
      if (400 <? e10)%Z
      then (if negative then PrimFloat.neg_infinity else PrimFloat.infinity)
      else if (e10 + Z.of_nat digits <? -400)%Z
      then (if negative then PrimFloat.neg_zero else PrimFloat.zero)
      else if (0 <=? e10)%Z
      then number_of_int negative (m * 10 ^ Z.to_N e10)
      else
        match (10 ^ Z.to_N (- e10))%N with
        | N0 => PrimFloat.nan
        | Npos pd =>
            FloatOps.SF2Prim
              (SpecFloat.SFdiv FloatOps.prec FloatOps.emax
                 (SpecFloat.S754_finite negative pm 0)
                 (SpecFloat.S754_finite false pd 0))
        end
  end.

(** The value of a digit in a radix, when it is one. *)
Definition digit_value (radix c : N) : option N :=
  let v := if in_range 48 57 c then Some (c - 48)
           else if in_range 97 122 c then Some (c - 87)
           else if in_range 65 90 c then Some (c - 55)
           else None in
  match v with
  | Some d => if d <? radix then Some d else None
  | None => None
  end.

(** The longest prefix of digits (their values) and what follows it. *)
Fixpoint take_digits (radix : N) (s : jsstring) : list N * jsstring :=
  match s with
  | [] => ([], [])
  | c :: r =>
      match digit_value radix c with
      | Some d => let '(ds, rest) := take_digits radix r in (d :: ds, rest)
      | None => ([], s)
      end
  end.

Definition digits_value (radix : N) (ds : list N) : N :=
  fold_left (fun acc d => acc * radix + d) ds 0.

(** An optional sign: whether it was a minus, and what follows. *)
Definition take_sign (s : jsstring) : bool * jsstring :=
  match s with
  | c :: r => if c =? 45 then (true, r) else if c =? 43 then (false, r) else (false, s)
  | [] => (false, s)
  end.

(** A field of a parsed multipart body: missing, a string, or (a repeated
    or bracketed field name) an array or object, kept by what [ToString]
    gives for it. *)
Inductive field :=
| Absent
| Text (s : jsstring)
| NonString (shown : jsstring).

Definition ToString (v : field) : jsstring :=
  match v with
  | Absent => str "undefined"
  | Text s => s
  | NonString shown => shown
  end.

(** [parseInt(v)] with no radix (ECMA-262, 19.2.5): leading white space, a
    sign, an optional [0x], then the longest run of digits. *)
Definition parseInt (v : field) : number :=
  let '(negative, s) := take_sign (trimStart (ToString v)) in
  let '(radix, s) :=
    match s with
    | c0 :: c1 :: r =>
        if (c0 =? 48) && ((c1 =? 120) || (c1 =? 88)) then (16, r) else (10, s)
    | _ => (10, s)
    end in
  match fst (take_digits radix s) with
  | [] => PrimFloat.nan
  | ds => number_of_int negative (digits_value radix ds)
  end.

(** The exponent part [e[+-]digits] at the head of [s], 0 when there is
    none. *)
Definition take_exponent (s : jsstring) : Z :=
  match s with
  | c :: r =>
      if (c =? 101) || (c =? 69)
      then let '(negative, r') := take_sign r in
           match fst (take_digits 10 r') with
           | [] => 0%Z
           | ds => let e := Z.of_N (digits_value 10 ds) in
                   if negative then Z.opp e else e
           end
      else 0%Z
  | [] => 0%Z
  end.

(** [parseFloat(v)] (ECMA-262, 19.2.4): leading white space, then the
    longest prefix that is a StrDecimalLiteral. *)
Definition parseFloat (v : field) : number :=
  let '(negative, s) := take_sign (trimStart (ToString v)) in
  if starts_with (str "Infinity") s
  then (if negative then PrimFloat.neg_infinity else PrimFloat.infinity)
  else
    let '(ip, s1) := take_digits 10 s in
    let '(fp, s2) :=
      match s1 with
      | c :: r => if c =? 46 then take_digits 10 r else ([], s1)
      | [] => ([], s1)
      end in
    match ip ++ fp with
    | [] => PrimFloat.nan
    | ds => number_of_decimal negative (digits_value 10 ds) (length ds)
              (take_exponent s2 - Z.of_nat (length fp))
    end.

(** The fields for which [parse(v) || d] is [d]: a field that is
    missing, or whose text does not start with a number, or starts with
    a zero number. *)
Definition falls_back (parse : field -> number) (v : field) : Prop :=
  v = Absent \/ is_nan (parse v) = true \/ is_zero (parse v) = true.

(** ** Paths (Node's [path] module, POSIX flavour) *)

Definition dot : jsstring := [46].
Definition dotdot : jsstring := [46; 46].

Fixpoint join_with (sep : N) (l : list jsstring) : jsstring :=
  match l with
  | [] => []
  | [x] => x
  | x :: r => x ++ sep :: join_with sep r
  end.

(** One segment of [normalizeString]; [res] holds the segments kept so
    far, the last one first. *)
Definition norm_step (allowAboveRoot : bool) (res : list jsstring) (seg : jsstring)
  : list jsstring :=
  if decide (seg = []) then res
  else if decide (seg = dot) then res
  else if decide (seg = dotdot) then
    match res with
    | top :: below =>
        if decide (top = dotdot)
        then (if allowAboveRoot then seg :: res else res)
        else below
    | [] => if allowAboveRoot then [seg] else []
    end
  else seg :: res.

Definition normalize (p : jsstring) : jsstring :=
  match p with
  | [] => dot
  | c :: _ =>
      let isAbsolute := c =? slash in
      let trailingSeparator := List.last p 0 =? slash in
      let body := join_with slash
                    (rev (fold_left (norm_step (negb isAbsolute)) (split slash p) [])) in
      match body with
      | [] => if isAbsolute then [slash]
              else if trailingSeparator then dot ++ [slash] else dot
      | _ => (if isAbsolute then [slash] else [])
             ++ body ++ (if trailingSeparator then [slash] else [])
      end
  end.

(** [path.join(...args)]. *)
Definition path_join (args : list jsstring) : jsstring :=
  match List.filter (fun a => negb (length a =? 0)%nat) args with
  | [] => dot
  | l => normalize (join_with slash l)
  end.

Fixpoint drop_slashes (s : jsstring) : jsstring :=
  match s with
  | [] => []
  | c :: r => if c =? slash then drop_slashes r else s
  end.

Fixpoint until_slash (s : jsstring) : jsstring :=
  match s with
  | [] => []
  | c :: r => if c =? slash then [] else c :: until_slash r
  end.

(** [path.basename(p)]: the last segment, trailing separators apart. *)
Definition basename (p : jsstring) : jsstring :=
  rev (until_slash (drop_slashes (rev p))).

(** A string without a separator. *)
Definition no_slash (s : jsstring) : Prop := Forall (fun c => c <> slash) s.

(** A file name that [normalize] keeps as it is. *)
Definition plain_name (f : jsstring) : Prop :=
  no_slash f /\ f <> [] /\ f <> dot /\ f <> dotdot.

(** [p] is empty or ends with a separator. *)
Definition dir_prefix (p : jsstring) : Prop := p = [] \/ exists q, p = q ++ [slash].

(** ** Documents and appearance options *)

Record size := { width : number; height : number }.

Inductive font := TimesRoman.
Inductive color := rgb (red green blue : number).
Inductive rotation := degrees (a : number).

(** One [page.drawText(text, {...})] call of pdf-lib. *)
Record drawText := {
  dt_text : jsstring;
  dt_x : number;
  dt_y : number;
  dt_size : number;
  dt_font : font;
  dt_color : color;
  dt_opacity : number;
  dt_rotate : rotation }.

Record page := { page_size : size; page_content : list drawText }.

(** A document under construction ([PDFDocument.create()]), by its pages. *)
Record document := { doc_pages : list page }.

(** The [options] object; [None] is a property that is [undefined]. *)
Record options := {
  fontSize : option number;
  angle : option number;
  opacity : option number;
  posX : option number;
  posY : option number }.

(** The reference page in the words of the specification: the third
    page, or the last one of a document with fewer than three. *)
Definition reference_page (pages : list size) : option size :=
  match pages with
  | _ :: _ :: third :: _ => Some third
  | _ => last pages
  end.

(** A call either returns or throws an [Error] with a message. *)
Inductive result (A : Type) :=
| Ok (a : A)
| Throw (message : jsstring).
Arguments Ok {A} a.
Arguments Throw {A} message.

(** [new WatermarkAppearance({...})] of the remote job. *)
Record WatermarkAppearance := { appearOnForeground : bool; appearance_opacity : N }.

(** What the archiver reports when it fails: the error it emits, and
    whether the promise of [finalize()] rejects with it as well. *)
Record archive_fault := { fault_message : jsstring; finalize_rejects : bool }.

(** ** The collaborators

    Everything the repository calls but does not implement: the PDF
    library's parser and case mapping of the runtime, the remote
    document service, the file system under the output stream, the
    archiver, the clock and the random source. *)
Class Host := {
  Buffer : Type;
  byteLength : Buffer -> N;
  (** [PDFDocument.load(buffer)] then [getPages()], each page by its size *)
  PDFDocument_load : Buffer -> result (list size);
  (** [page.drawText(text, {...})]: the error the PDF library throws for
      the call, if any (it checks the opacity against [0, 1] and encodes
      the text for the font) *)
  drawText_fault : drawText -> option jsstring;
  (** [String.prototype.toUpperCase] *)
  toUpperCase : jsstring -> jsstring;
  (** credentials, [uploadAssets], [submit], [getJobResult], [getContent] *)
  pdfServices : Buffer -> document -> WatermarkAppearance -> result Buffer;
  (** [fs.createWriteStream(p)] with the result piped into it: the error
      the stream emits, if any (a name too long, a directory that is not
      there), the first argument telling which paths of the output tree
      exist *)
  createWriteStream_fault : (jsstring -> bool) -> jsstring -> option jsstring;
  (** the archiver's failure, if any, on the queued (file, entry name) pairs *)
  archiver_fault : list (jsstring * jsstring) -> option archive_fault;
  (** [Date.now()] as the template literal prints it, at the n-th reading *)
  Date_now : nat -> jsstring;
  (** [Math.random().toString(36).slice(2)] at the n-th reading *)
  Math_random : nat -> jsstring;
  (** [__dirname] of the service's modules *)
  dirname : jsstring }.

Section Service.
Context {host : Host}.

(** ** The file system and the world *)

#[warnings="-register-all"]
Inductive content :=
| Raw (b : Buffer)
| Saved (d : document)
| Zip (entries : list (jsstring * option content))
| Unfinished.

Inductive node :=
| Dir
| File (c : content).

Inductive event :=
| BuildOverlay (text : jsstring)
| RemoteJob (overlay : document).

(** [out] is the tree under [__dirname/output], [tmp] the one under
    [__dirname/temp]: two distinct directories, each with its own store,
    keyed by full path. [log] records the overlay builds and remote jobs
    in the order they were started; [tick] counts the readings of the
    clock and of the random source. *)
Record world := {
  out : gmap jsstring node;
  tmp : gmap jsstring node;
  log : list event;
  tick : nat }.

Definition set_out (f : gmap jsstring node -> gmap jsstring node) (w : world) : world :=
  {| out := f (out w); tmp := tmp w; log := log w; tick := tick w |}.

Definition set_tmp (f : gmap jsstring node -> gmap jsstring node) (w : world) : world :=
  {| out := out w; tmp := f (tmp w); log := log w; tick := tick w |}.

(** [fs.existsSync]. *)
Definition existsSync (store : gmap jsstring node) (p : jsstring) : bool :=
  bool_decide (is_Some (store !! p)).

(** [p] is directory [d] or lies below it. *)
Definition at_or_below (d p : jsstring) : bool :=
  bool_decide (p = d) || starts_with (d ++ [slash]) p.

(** [fs.rmSync(d, { recursive: true, force: true })]. *)
Definition rmSync (d : jsstring) (store : gmap jsstring node) : gmap jsstring node :=
  filter (fun kv => at_or_below d kv.1 = false) store.

Definition read (store : gmap jsstring node) (p : jsstring) : option content :=
  match store !! p with
  | Some (File c) => Some c
  | _ => None
  end.

(** Computations on the world that may throw. *)
Definition M (A : Type) : Type := world -> result A * world.

#[export] Instance M_ret : MRet M := fun A a w => (Ok a, w).

#[export] Instance M_bind : MBind M := fun A B f m w =>
  match m w with
  | (Ok a, w') => f a w'
  | (Throw e, w') => (Throw e, w')
  end.

Definition lift {A} (r : result A) : M A := fun w => (r, w).

Definition update (f : world -> world) : M unit := fun w => (Ok tt, f w).

(** [try { body } finally { cleanup }] with a cleanup that does not throw. *)
Definition finally {A} (body : M A) (cleanup : world -> world) : M A := fun w =>
  let '(r, w') := body w in (r, cleanup w').

Definition trace (e : event) : M unit :=
  update (fun w => {| out := out w; tmp := tmp w; log := log w ++ [e]; tick := tick w |}).

(** One reading of a source that changes between readings. *)
Definition observe (source : nat -> jsstring) (w : world) : jsstring * world :=
  (source (tick w),
   {| out := out w; tmp := tmp w; log := log w; tick := S (tick w) |}).

Definition reading (source : nat -> jsstring) : M jsstring := fun w =>
  let '(v, w') := observe source w in (Ok v, w').

(** ** The overlay generator: [createWatermarkPdf] *)

Definition createWatermarkPdf (sourcePdfBuffer : Buffer) (watermarkText : jsstring)
    (o : options) : result document :=
  let fontSize := default 30%float (fontSize o) in
  let angle := default 55%float (angle o) in
  let opacity := default 0.5%float (opacity o) in
  let posX := default 50%float (posX o) in
  let posY := default 50%float (posY o) in
  match PDFDocument_load sourcePdfBuffer with
  | Throw e => Throw e
  | Ok pages =>
      let refPageIndex := Z.min 2 (Z.of_nat (length pages) - 1) in
      match (if (refPageIndex <? 0)%Z then None
             else pages !! Z.to_nat refPageIndex) with
      | None => Throw (str "Cannot read properties of undefined (reading 'getSize')")
      | Some ref =>
          let x := (posX / 100 * width ref)%float in
          let y := (posY / 100 * height ref)%float in
          let text := {| dt_text := toUpperCase watermarkText;
                         dt_x := x;
                         dt_y := y;
                         dt_size := fontSize;
                         dt_font := TimesRoman;
                         dt_color := rgb 0.5%float 0.5%float 0.5%float;
                         dt_opacity := opacity;
                         dt_rotate := degrees angle |} in
          match drawText_fault text with
          | Some e => Throw e
          | None =>
              Ok {| doc_pages :=
                      [ {| page_size := {| width := width ref; height := height ref |};
                           page_content := [text] |} ] |}
          end
      end
  end.

(** ** The remote compositing client: [applyWatermark] *)

(** The appearance every remote job is submitted with. *)
Definition job_appearance : WatermarkAppearance :=
  {| appearOnForeground := false; appearance_opacity := 40 |}.

Definition applyWatermark (inputPdfBuffer : Buffer)
    (watermarkText outputPath : jsstring) (o : options) : M jsstring :=
  let tempDir := path_join [dirname; str "temp"] in
  _ ← (fun w => if existsSync (tmp w) tempDir then (Ok tt, w)
                else (Ok tt, set_tmp <[tempDir := Dir]> w));
  now1 ← reading Date_now;
  rnd1 ← reading Math_random;
  let tempInputPath :=
    path_join [tempDir; str "input_" ++ now1 ++ str "_" ++ rnd1 ++ str ".pdf"] in
  now2 ← reading Date_now;
  rnd2 ← reading Math_random;
  let tempWatermarkPath :=
    path_join [tempDir; str "watermark_" ++ now2 ++ str "_" ++ rnd2 ++ str ".pdf"] in
  finally
    (_ ← trace (BuildOverlay watermarkText);
     watermarkPdfBytes ← lift (createWatermarkPdf inputPdfBuffer watermarkText o);
     _ ← update (set_tmp <[tempInputPath := File (Raw inputPdfBuffer)]>);
     _ ← update (set_tmp <[tempWatermarkPath := File (Saved watermarkPdfBytes)]>);
     _ ← trace (RemoteJob watermarkPdfBytes);
     resultBytes ← lift (pdfServices inputPdfBuffer watermarkPdfBytes job_appearance);
     _ ← ((fun w => match createWriteStream_fault (existsSync (out w)) outputPath with
                    | Some e => (Throw e, w)
                    | None =>
                        (Ok tt, set_out <[outputPath := File (Raw resultBytes)]> w)
                    end) : M unit);
     mret outputPath)
    (fun w => set_tmp (fun t => delete tempWatermarkPath (delete tempInputPath t)) w).

(** ** The orchestrator: [processMultipleWatermarks] *)

(** The [for] loop over [watermarkTexts], from index [i] on; [outputPaths]
    is the array filled so far. *)
Fixpoint watermark_loop (inputPdfBuffer : Buffer) (outputDir : jsstring) (o : options)
    (watermarkTexts : list jsstring) (outputPaths : list jsstring)
  : M (list jsstring) :=
  match watermarkTexts with
  | [] => mret outputPaths
  | t :: rest =>
      let text := trim t in
      match text with
      | [] => watermark_loop inputPdfBuffer outputDir o rest outputPaths
      | _ =>
          let sanitizedName := sanitize text in
          let outputPath := path_join [outputDir; sanitizedName ++ str ".pdf"] in
          _ ← applyWatermark inputPdfBuffer text outputPath o;
          watermark_loop inputPdfBuffer outputDir o rest (outputPaths ++ [outputPath])
      end
  end.

Definition processMultipleWatermarks (inputPdfBuffer : Buffer)
    (watermarkTexts : list jsstring) (outputDir : jsstring) (o : options)
  : M (list jsstring) :=
  _ ← (fun w => if existsSync (out w) outputDir then (Ok tt, w)
                else (Ok tt, set_out <[outputDir := Dir]> w));
  watermark_loop inputPdfBuffer outputDir o watermarkTexts [].

(** The path the orchestrator writes the result for a (trimmed) phrase to. *)
Definition output_path (outputDir text : jsstring) : jsstring :=
  path_join [outputDir; sanitize text ++ str ".pdf"].

(** The phrases the loop does not skip, trimmed. *)
Definition kept_phrases (watermarkTexts : list jsstring) : list jsstring :=
  List.filter (fun t => (0 <? length t)%nat) (map trim watermarkTexts).

(** A phrase the pipeline can process: its overlay can be built and the
    remote service composites it. *)
Definition processable (input : Buffer) (o : options) (text : jsstring) : Prop :=
  exists d b, createWatermarkPdf input text o = Ok d
              /\ pdfServices input d job_appearance = Ok b.

(** The result for a phrase can be written under [outputDir] once that
    directory exists, whatever else does. *)
Definition writable (outputDir text : jsstring) : Prop :=
  forall present : jsstring -> bool,
    present outputDir = true ->
    createWriteStream_fault present (output_path outputDir text) = None.

(** [p] holds a result written by the remote compositing client. *)
Definition written (store : gmap jsstring node) (p : jsstring) : Prop :=
  exists b, store !! p = Some (File (Raw b)).

(** ** The endpoint: [POST /api/watermark] *)

Record upload := { mimetype : jsstring; buffer : Buffer }.

(** The text fields of the multipart body. *)
Record form := {
  watermarks : field;
  body_fontSize : field;
  body_angle : field;
  body_opacity : field;
  body_posX : field;
  body_posY : field }.

(** A request: the part sent as file field [pdf], if any, and the body. *)
Record request := { req_file : option upload; req_body : form }.

Inductive payload :=
| Json (members : list (jsstring * jsstring))
| Piped (c : option content)
| ErrorPage (message : jsstring).

Record response := {
  status : N;
  headers : list (jsstring * jsstring);
  body : payload }.

(** What a [setTimeout] callback of the handler does when it fires. *)
Inductive cleanup :=
| RmRecursive (p : jsstring)
| Unlink (p : jsstring).

(** A handled request: the response the client receives, the world the
    handler leaves, and the timers it has set (delay in ms, actions). *)
Record outcome := {
  sent : response;
  world_after : world;
  timers : list (N * list cleanup) }.

Definition quote : N := 34.

(** [res.status(code).json({...})]. *)
Definition json (code : N) (members : list (jsstring * jsstring)) : response :=
  {| status := code;
     headers := [(str "Content-Type", str "application/json; charset=utf-8")];
     body := Json members |}.

(** [fileFilter] of the multer configuration. *)
Definition fileFilter (file : upload) : result bool :=
  if decide (mimetype file = str "application/pdf") then Ok true
  else Throw (str "Only PDF files are allowed").

Definition fileSize_limit : N := 50 * 1024 * 1024.

(** [upload.single('pdf')]: the filter's error or a file over the limit
    ends the request with an error; otherwise [req.file] is the file, or
    [undefined] when none was sent. *)
Definition upload_single (r : request) : result (option upload) :=
  match req_file r with
  | None => Ok None
  | Some file =>
      match fileFilter file with
      | Throw e => Throw e
      | Ok _ =>
          if fileSize_limit <? byteLength (buffer file)
          then Throw (str "File too large")
          else Ok (Some file)
      end
  end.

(** An error passed to [next] with no error-handling middleware
    registered ([server.js] registers none): Express answers with
    [err.status || err.statusCode || 500] (neither is set on these
    errors) and the HTML page it renders for the error. *)
Definition finalhandler (message : jsstring) : response :=
  {| status := 500;
     headers := [(str "Content-Type", str "text/html; charset=utf-8")];
     body := ErrorPage message |}.

(** The [options] object of the handler. *)
Definition parse_options (b : form) : options :=
  {| fontSize := Some (or_else (parseInt (body_fontSize b)) 30%float);
     angle := Some (or_else (parseInt (body_angle b)) 55%float);
     opacity := Some (or_else (parseFloat (body_opacity b)) 0.5%float);
     posX := Some (or_else (parseFloat (body_posX b)) 50%float);
     posY := Some (or_else (parseFloat (body_posY b)) 50%float) |}.

(** [watermarks.split(',').map(w => w.trim()).filter(w => w.length > 0)]. *)
Definition parse_watermarks (watermarks : jsstring) : list jsstring :=
  List.filter (fun w => (0 <? length w)%nat) (map trim (split comma watermarks)).

(** The [catch] block of the handler. *)
Definition on_error (sessionOutputDir message : jsstring) (w : world) : outcome :=
  {| sent := json 500 [(str "error", str "Failed to process watermark request");
                       (str "details", message)];
     world_after := if existsSync (out w) sessionOutputDir
                    then set_out (rmSync sessionOutputDir) w else w;
     timers := [] |}.

(** The single-file branch of the packager. *)
Definition send_single (sessionOutputDir filePath : jsstring) (w : world) : outcome :=
  let fileName := basename filePath in
  {| sent := {| status := 200;
                headers := [(str "Content-Type", str "application/pdf");
                            (str "Content-Disposition",
                             str "attachment; filename="
                               ++ quote :: fileName ++ [quote])];
                body := Piped (read (out w) filePath) |};
     world_after := w;
     timers := [(5000, [RmRecursive sessionOutputDir])] |}.

(** The ZIP branch of the packager. When the archiver emits an error its
    listener answers; the [catch] block runs as well when [finalize()]
    rejects, with the response already sent. *)
Definition send_zip (outputDir sessionOutputDir : jsstring) (outputPaths : list jsstring)
    (w : world) : outcome :=
  let '(now, w) := observe Date_now w in
  let zipFileName := str "watermarked_pdfs_" ++ now ++ str ".zip" in
  let zipPath := path_join [outputDir; zipFileName] in
  match archiver_fault (map (fun filePath => (filePath, basename filePath)) outputPaths) with
  | None =>
      let entries := map (fun filePath => (basename filePath, read (out w) filePath))
                       outputPaths in
      let w := set_out <[zipPath := File (Zip entries)]> w in
      {| sent := {| status := 200;
                    headers := [(str "Content-Type", str "application/zip");
                                (str "Content-Disposition",
                                 str "attachment; filename="
                                   ++ quote :: zipFileName ++ [quote])];
                    body := Piped (read (out w) zipPath) |};
         world_after := w;
         timers := [(5000, [RmRecursive sessionOutputDir; Unlink zipPath])] |}
  | Some fault =>
      let w := set_out <[zipPath := File Unfinished]> w in
      {| sent := json 500 [(str "error", str "Failed to create ZIP archive")];
         world_after := if finalize_rejects fault
                        then world_after (on_error sessionOutputDir (fault_message fault) w)
                        else w;
         timers := [] |}
  end.

Definition reply (r : response) (w : world) : outcome :=
  {| sent := r; world_after := w; timers := [] |}.

(** The handler proper, run once [upload.single] has let the request
    through. *)
Definition handler (file : option upload) (b : form) (w : world) : outcome :=
  let '(now, w) := observe Date_now w in
  let '(rnd, w) := observe Math_random w in
  let sessionId := str "session_" ++ now ++ str "_" ++ rnd in
  let outputDir := path_join [dirname; str "output"] in
  let sessionOutputDir := path_join [outputDir; sessionId] in
  match file with
  | None => reply (json 400 [(str "error", str "No PDF file uploaded")]) w
  | Some file =>
      match watermarks b with
      | Text (c :: text) =>
          match parse_watermarks (c :: text) with
          | [] => reply (json 400 [(str "error",
                                    str "At least one watermark text is required")]) w
          | watermarkTexts =>
              match processMultipleWatermarks (buffer file) watermarkTexts
                      sessionOutputDir (parse_options b) w with
              | (Throw message, w) => on_error sessionOutputDir message w
              | (Ok [], w) =>
                  reply (json 500 [(str "error", str "No files were generated")]) w
              | (Ok [filePath], w) => send_single sessionOutputDir filePath w
              | (Ok outputPaths, w) =>
                  send_zip outputDir sessionOutputDir outputPaths w
              end
          end
      | _ => reply (json 400 [(str "error", str "Watermarks text is required")]) w
      end
  end.

(** The route: [upload.single('pdf')], then the handler. *)
Definition watermark_route (r : request) (w : world) : outcome :=
  match upload_single r with
  | Throw message => reply (finalhandler message) w
  | Ok file => handler file (req_body r) w
  end.

(** The session directory of a request that starts in world [w]. *)
Definition session_dir (w : world) : jsstring :=
  path_join [path_join [dirname; str "output"];
             str "session_" ++ Date_now (tick w) ++ str "_" ++ Math_random (S (tick w))].

(** The world once the session identifier has been drawn. *)
Definition in_session (w : world) : world :=
  (observe Math_random (observe Date_now w).2).2.

End Service.

(** ** A test double for the collaborators *)

Definition ascii_upper (c : N) : N := if in_range 97 122 c then c - 32 else c.

(** The double of [drawText]: it refuses an opacity that is not within
    [0, 1] and, of what the font's encoding lacks, knows the code units
    outside printable ASCII and the upper half of Latin-1. *)
Definition fake_drawText_fault (t : drawText) : option jsstring :=
  if negb ((0 <=? dt_opacity t) && (dt_opacity t <=? 1))%float
  then Some (str "`opacity.opacity` must be at least 0 and at most 1")
  else if forallb (fun c => in_range 32 126 c || in_range 160 255 c) (dt_text t)
       then None
       else Some (str "WinAnsi cannot encode the text").

Fixpoint after_slash (s : jsstring) : jsstring :=
  match s with
  | [] => []
  | c :: r => if c =? slash then r else after_slash r
  end.

(** The directory a path names a file in. *)
Definition parent_of (p : jsstring) : jsstring := rev (after_slash (rev p)).

(** The double of the output stream: it refuses a file name of more than
    255 units, and a file in a directory that does not exist. *)
Definition fake_createWriteStream_fault (present : jsstring -> bool) (p : jsstring)
  : option jsstring :=
  if (255 <? length (basename p))%nat
  then Some (str "ENAMETOOLONG: name too long, open")
  else if present (parent_of p) then None
       else Some (str "ENOENT: no such file or directory, open").

(** A source is held as the sizes of its pages, and parses unless
    [parses] is off; the remote service answers with the source itself,
    or fails when [remote_ok] is off; the archiver fails with [fault]
    when there is one. *)
Definition fake_host (parses remote_ok : bool) (fault : option archive_fault) : Host :=
  {| Buffer := list size;
     byteLength := fun b => N.of_nat (length b);
     PDFDocument_load := fun b =>
       if parses then Ok b else Throw (str "Failed to parse PDF document");
     drawText_fault := fake_drawText_fault;
     toUpperCase := map ascii_upper;
     pdfServices := fun source _ _ =>
       if remote_ok then Ok source else Throw (str "quota exceeded");
     createWriteStream_fault := fake_createWriteStream_fault;
     archiver_fault := fun _ => fault;
     Date_now := fun n => repeat 49 (S n);
     Math_random := fun n => repeat 122 (S n);
     dirname := str "/srv/app" |}.

Definition letter : size := {| width := 612%float; height := 792%float |}.
Definition legal : size := {| width := 612%float; height := 1008%float |}.

Definition empty_world {host : Host} : world :=
  {| out := ∅; tmp := ∅; log := []; tick := 0 |}.

(** A body that carries the phrases and no appearance field. *)
Definition form_of (phrases : string) : form :=
  {| watermarks := Text (str phrases); body_fontSize := Absent; body_angle := Absent;
     body_opacity := Absent; body_posX := Absent; body_posY := Absent |}.

Definition upload_of (host : Host) (mime : string) (b : @Buffer host) : @upload host :=
  {| mimetype := str mime; buffer := b |}.

(** A request with a file of the given MIME type and a body that
    carries the phrases only. *)
Definition request_of (host : Host) (mime phrases : string) (b : @Buffer host)
  : @request host :=
  {| req_file := Some (upload_of host mime b); req_body := form_of phrases |}.

Definition disk_full (rejects : bool) : archive_fault :=
  {| fault_message := str "disk full"; finalize_rejects := rejects |}.

Definition given_options : options :=
  {| fontSize := Some 30%float; angle := Some 55%float; opacity := Some 0.5%float;
     posX := Some 50%float; posY := Some 50%float |}.

(** ** Normal forms of paths *)

(** The stack [normalizeString] keeps, last segment first: plain
    segments above a block of [..], which is there only when segments
    above the root are allowed. *)
Fixpoint stack_ok (allowAboveRoot : bool) (res : list jsstring) : Prop :=
  match res with
  | [] => True
  | s :: below =>
      if decide (s = dotdot)
      then allowAboveRoot = true /\ Forall (fun t => t = dotdot) below
      else plain_name s /\ stack_ok allowAboveRoot below
  end.

(** A path that ends with a plain segment: a directory or a file the
    service has joined a name to. *)
Definition ends_plain (d : jsstring) : Prop :=
  exists x f, d = x ++ f /\ dir_prefix x /\ plain_name f.

Section Lifecycle.
Context {host : Host}.

(** ** Timers, temp files and the order of the work *)

(** [fs.unlinkSync(p)]: throws when there is no file at [p]. *)
Definition unlinkSync (p : jsstring) (store : gmap jsstring node)
  : result (gmap jsstring node) :=
  match store !! p with
  | Some (File _) => Ok (delete p store)
  | _ => Throw (str "ENOENT: no such file or directory, unlink")
  end.

Definition run_cleanup (c : cleanup) (store : gmap jsstring node)
  : result (gmap jsstring node) :=
  match c with
  | RmRecursive p => Ok (rmSync p store)
  | Unlink p => unlinkSync p store
  end.

(** The body of a [setTimeout] callback: its actions in turn, up to the
    first that throws. *)
Fixpoint run_cleanups (actions : list cleanup) (store : gmap jsstring node)
  : result (gmap jsstring node) :=
  match actions with
  | [] => Ok store
  | c :: rest =>
      match run_cleanup c store with
      | Ok store' => run_cleanups rest store'
      | Throw e => Throw e
      end
  end.

(** [tempDir], [tempInputPath] and [tempWatermarkPath] of a call of
    [applyWatermark] that starts in world [w]. *)
Definition temp_dir : jsstring := path_join [dirname; str "temp"].

Definition temp_input_path (w : world) : jsstring :=
  path_join [temp_dir;
             str "input_" ++ Date_now (tick w) ++ str "_"
               ++ Math_random (S (tick w)) ++ str ".pdf"].

Definition temp_watermark_path (w : world) : jsstring :=
  path_join [temp_dir;
             str "watermark_" ++ Date_now (S (S (tick w))) ++ str "_"
               ++ Math_random (S (S (S (tick w)))) ++ str ".pdf"].

(** [if (!fs.existsSync(d)) fs.mkdirSync(d, { recursive: true })]. *)
Definition ensure_dir (d : jsstring) (store : gmap jsstring node) : gmap jsstring node :=
  if existsSync store d then store else <[d := Dir]> store.




(** The readings of the clock and of the random source a request that
    starts in [w] takes for its session name hold no separator. *)
Definition session_name_plain (w : world) : Prop :=
  no_slash (Date_now (tick w)) /\ no_slash (Math_random (S (tick w))).

(** [zipPath] of a response whose archive is named in world [w1]. *)
Definition zip_path (w1 : world) : jsstring :=
  path_join [path_join [dirname; str "output"];
             str "watermarked_pdfs_" ++ Date_now (tick w1) ++ str ".zip"].

End Lifecycle.

(** ** The periodic sweep: [cleanupOldFiles] *)

(** What [fs.statSync] tells of a path that the sweep uses. *)
Record Stats := { isDirectory : bool; mtimeMs : number }.

(** What is at a path: something [fs.statSync] describes, or a link
    whose target is gone, which [fs.readdirSync] lists and [fs.statSync]
    cannot follow. *)
Inductive inode :=
| Stat (stats : Stats)
| Dangling.

(** The file system as the sweep sees it: every path with what is
    there. *)
Abbreviation tree := (gmap jsstring inode).

Definition maxAge : number := (60 * 60 * 1000)%float.

(** [now - stats.mtimeMs > maxAge]. *)
Definition expired (now : number) (stats : Stats) : bool :=
  (maxAge <? now - mtimeMs stats)%float.

(** A name a directory can hold: not empty, no separator, neither [.]
    nor [..]. *)
Definition is_plain (n : jsstring) : bool :=
  negb (bool_decide (n = [])) && forallb (fun c => negb (c =? slash)) n
  && negb (bool_decide (n = dot)) && negb (bool_decide (n = dotdot)).

(** The name under which [p] is an entry of directory [dir], if it is
    one. *)
Definition entry_of (dir p : jsstring) : option jsstring :=
  if starts_with (dir ++ [slash]) p
  then let name := drop (length dir + 1) p in
       if is_plain name then Some name else None
  else None.

(** [fs.readdirSync(dir)] on a directory: the names of its entries. *)
Definition readdirSync (dir : jsstring) (fs : tree) : list jsstring :=
  omap (entry_of dir) (map_to_list fs).*1.

(** [fs.statSync(p)]: it follows links, and throws when nothing is
    there. *)
Definition statSync (fs : tree) (p : jsstring) : result Stats :=
  match fs !! p with
  | Some (Stat stats) => Ok stats
  | _ => Throw (str "ENOENT: no such file or directory, stat")
  end.

(** [fs.rmSync(d, { recursive: true, force: true })] on a tree. *)
Definition rmTree (d : jsstring) (fs : tree) : tree :=
  filter (fun kv => at_or_below d kv.1 = false) fs.

(** The body of the inner [forEach]: one entry of [dir]. What it
    returns is whether it threw, and the tree it leaves. *)
Definition sweep_entry (now : number) (dir : jsstring) (fs : tree) (file : jsstring)
  : result unit * tree :=
  let filePath := path_join [dir; file] in
  match statSync fs filePath with
  | Throw e => (Throw e, fs)
  | Ok stats =>
      if expired now stats
      then (if isDirectory stats then (Ok tt, rmTree filePath fs)
            else (Ok tt, delete filePath fs))
      else (Ok tt, fs)
  end.

(** The inner [forEach]: it has no [try], so the first entry that
    throws ends it. *)
Fixpoint sweep_entries (now : number) (dir : jsstring) (files : list jsstring) (fs : tree)
  : result unit * tree :=
  match files with
  | [] => (Ok tt, fs)
  | file :: rest =>
      match sweep_entry now dir fs file with
      | (Ok _, fs') => sweep_entries now dir rest fs'
      | (Throw e, fs') => (Throw e, fs')
      end
  end.

(** The body of the outer [forEach]: one of the two roots.
    [fs.existsSync] follows links; [fs.readdirSync] throws on what is
    not a directory. *)
Definition sweep_dir (now : number) (dir : jsstring) (fs : tree) : result unit * tree :=
  match fs !! dir with
  | Some (Stat stats) =>
      if isDirectory stats then sweep_entries now dir (readdirSync dir fs) fs
      else (Throw (str "ENOTDIR: not a directory, scandir"), fs)
  | _ => (Ok tt, fs)
  end.

(** [cleanupOldFiles()], [now] being what [Date.now()] gives it. *)
Definition cleanupOldFiles {host : Host} (now : number) (fs : tree) : result unit * tree :=
  match sweep_dir now (path_join [dirname; str "output"]) fs with
  | (Ok _, fs') => sweep_dir now (path_join [dirname; str "uploads"]) fs'
  | (Throw e, fs') => (Throw e, fs')
  end.

(** The sweep removes [p] on account of the entry [n] of [dir]: the
    entry has expired, and [p] is the entry itself or, the entry being a
    directory, lies below it. *)
Definition doomed_by (now : number) (dir : jsstring) (fs : tree) (n p : jsstring) : Prop :=
  exists stats,
    fs !! (dir ++ slash :: n) = Some (Stat stats) /\ expired now stats = true
    /\ (p = dir ++ slash :: n
        \/ (isDirectory stats = true /\ at_or_below (dir ++ slash :: n) p = true)).

Definition is_directory (fs : tree) (dir : jsstring) : Prop :=
  exists stats, fs !! dir = Some (Stat stats) /\ isDirectory stats = true.

Definition doomed (now : number) (dir : jsstring) (fs : tree) (p : jsstring) : Prop :=
  is_directory fs dir /\ exists n, plain_name n /\ doomed_by now dir fs n p.

(** The sweep of [dir] cannot get through: [dir] is there and is not a
    directory, or it holds an entry the sweep cannot stat. *)
Definition broken (dir : jsstring) (fs : tree) : Prop :=
  exists stats,
    fs !! dir = Some (Stat stats)
    /\ (isDirectory stats = false
        \/ exists n, plain_name n /\ fs !! (dir ++ slash :: n) = Some Dangling).

(** What holds of the tree [cur] while the entries [done] of [dir] have
    been swept out of [fs0]: nothing was added or changed, what is
    missing is missing on account of an entry swept so far, and what
    such an entry dooms is missing. *)
Definition sweep_inv (now : number) (dir : jsstring) (fs0 cur : tree)
    (done : list jsstring) : Prop :=
  (forall p v, cur !! p = Some v -> fs0 !! p = Some v)
  /\ (forall p, is_Some (fs0 !! p) -> cur !! p = None ->
                exists n, n ∈ done /\ doomed_by now dir fs0 n p)
  /\ (forall n p, n ∈ done -> doomed_by now dir fs0 n p -> cur !! p = None).

(** A tree for the sweep: under the output root, a session directory
    that is exactly one hour old and holds a file older than that, and a
    loose archive that is one millisecond older than the hour. *)
Definition swept_tree : tree :=
  <[ str "/srv/app/output" := Stat {| isDirectory := true; mtimeMs := 0%float |} ]>
  (<[ str "/srv/app/output/session_1_zz" :=
        Stat {| isDirectory := true; mtimeMs := 1000%float |} ]>
  (<[ str "/srv/app/output/session_1_zz/For_Alice.pdf" :=
        Stat {| isDirectory := false; mtimeMs := 0%float |} ]>
  (<[ str "/srv/app/output/watermarked_pdfs_1.zip" :=
        Stat {| isDirectory := false; mtimeMs := 999%float |} ]> ∅))).

(** The same roots with a link under the output root whose target is
    gone, and an upload that is older than the hour. *)
Definition tree_with_dangling_link : tree :=
  <[ str "/srv/app/output" := Stat {| isDirectory := true; mtimeMs := 0%float |} ]>
  (<[ str "/srv/app/output/latest" := Dangling ]>
  (<[ str "/srv/app/uploads" := Stat {| isDirectory := true; mtimeMs := 0%float |} ]>
  (<[ str "/srv/app/uploads/old.pdf" :=
        Stat {| isDirectory := false; mtimeMs := 0%float |} ]> ∅))).

(** ** The browser client: [App.jsx] *)

(** What the page takes from the browser: [String(n)] of a Number, as
    [FormData.append] applies it to the slider values, and the message of
    the [SyntaxError] with which [response.json()] rejects a body that is
    not JSON. *)
Class Browser {host : Host} := {
  Number_toString : number -> jsstring;
  SyntaxError_message : payload -> jsstring }.

(** The multipart body of the request: the file part and the six text
    fields. *)
Definition multipart {host : Host} (pdf : upload) (w fs a o x y : jsstring) : request :=
  {| req_file := Some pdf;
     req_body := {| watermarks := Text w; body_fontSize := Text fs; body_angle := Text a;
                    body_opacity := Text o; body_posX := Text x; body_posY := Text y |} |}.

Definition ascii_lower (c : N) : N := if in_range 65 90 c then c + 32 else c.

(** LineTerminator of ECMA-262: what [.] does not match. *)
Definition is_line_terminator (c : N) : bool :=
  (c =? 10) || (c =? 13) || (c =? 8232) || (c =? 8233).

(** The group [(.+)] and the quote after it, matched at the head of
    [s]: what the group holds. The quantifier is
    greedy, so the longer runs are tried first and the run backs off
    until a quote follows it. *)
Fixpoint group_then_quote (s : jsstring) : option jsstring :=
  match s with
  | [] => None
  | c :: r =>
      if is_line_terminator c then None
      else match group_then_quote r with
           | Some g => Some (c :: g)
           | None =>
               match r with
               | q :: _ => if q =? quote then Some [c] else None
               | [] => None
               end
           end
  end.

(** [s.match(/filename="(.+)"/)]: the group of the leftmost match, if
    the expression matches anywhere. *)
Fixpoint match_filename (s : jsstring) : option jsstring :=
  match s with
  | [] => None
  | _ :: r =>
      if starts_with (str "filename=" ++ [quote]) s
      then match group_then_quote (drop 10 s) with
           | Some g => Some g
           | None => match_filename r
           end
      else match_filename r
  end.

(** [v || d] on a string that may be undefined. *)
Definition or_text (v : option jsstring) (d : jsstring) : jsstring :=
  match v with
  | Some (c :: r) => c :: r
  | _ => d
  end.

(** The member [key] of a parsed JSON object: the last one of that
    name. *)
Definition member (key : jsstring) (o : list (jsstring * jsstring)) : option jsstring :=
  match List.filter (fun kv => bool_decide (fst kv = key)) (rev o) with
  | kv :: _ => Some (snd kv)
  | [] => None
  end.

Module App.
Section Page.
Context {host : Host} {browser : Browser}.

(** A [File] of the DOM. *)
Record DOMFile := { name : jsstring; type : jsstring; bytes : Buffer }.

(** The state of the component. *)
Record state := {
  file : option DOMFile;
  watermarks : jsstring;
  isProcessing : bool;
  error : jsstring;
  dragActive : bool;
  panelOpen : bool;
  fontSize : number;
  angle : number;
  opacity : number;
  posX : number;
  posY : number }.

Definition initial : state :=
  {| file := None; watermarks := []; isProcessing := false; error := [];
     dragActive := false; panelOpen := false;
     fontSize := 30%float; angle := 55%float; opacity := 0.5%float;
     posX := 50%float; posY := 50%float |}.

Definition setFile (v : option DOMFile) (st : state) : state :=
  {| file := v; watermarks := watermarks st; isProcessing := isProcessing st;
     error := error st; dragActive := dragActive st; panelOpen := panelOpen st;
     fontSize := fontSize st; angle := angle st; opacity := opacity st;
     posX := posX st; posY := posY st |}.

Definition setWatermarks (v : jsstring) (st : state) : state :=
  {| file := file st; watermarks := v; isProcessing := isProcessing st;
     error := error st; dragActive := dragActive st; panelOpen := panelOpen st;
     fontSize := fontSize st; angle := angle st; opacity := opacity st;
     posX := posX st; posY := posY st |}.

Definition setIsProcessing (v : bool) (st : state) : state :=
  {| file := file st; watermarks := watermarks st; isProcessing := v;
     error := error st; dragActive := dragActive st; panelOpen := panelOpen st;
     fontSize := fontSize st; angle := angle st; opacity := opacity st;
     posX := posX st; posY := posY st |}.

Definition setError (v : jsstring) (st : state) : state :=
  {| file := file st; watermarks := watermarks st; isProcessing := isProcessing st;
     error := v; dragActive := dragActive st; panelOpen := panelOpen st;
     fontSize := fontSize st; angle := angle st; opacity := opacity st;
     posX := posX st; posY := posY st |}.

Definition setDragActive (v : bool) (st : state) : state :=
  {| file := file st; watermarks := watermarks st; isProcessing := isProcessing st;
     error := error st; dragActive := v; panelOpen := panelOpen st;
     fontSize := fontSize st; angle := angle st; opacity := opacity st;
     posX := posX st; posY := posY st |}.

Definition setPanelOpen (v : bool) (st : state) : state :=
  {| file := file st; watermarks := watermarks st; isProcessing := isProcessing st;
     error := error st; dragActive := dragActive st; panelOpen := v;
     fontSize := fontSize st; angle := angle st; opacity := opacity st;
     posX := posX st; posY := posY st |}.

Definition setFontSize (v : number) (st : state) : state :=
  {| file := file st; watermarks := watermarks st; isProcessing := isProcessing st;
     error := error st; dragActive := dragActive st; panelOpen := panelOpen st;
     fontSize := v; angle := angle st; opacity := opacity st;
     posX := posX st; posY := posY st |}.

Definition setAngle (v : number) (st : state) : state :=
  {| file := file st; watermarks := watermarks st; isProcessing := isProcessing st;
     error := error st; dragActive := dragActive st; panelOpen := panelOpen st;
     fontSize := fontSize st; angle := v; opacity := opacity st;
     posX := posX st; posY := posY st |}.

Definition setOpacity (v : number) (st : state) : state :=
  {| file := file st; watermarks := watermarks st; isProcessing := isProcessing st;
     error := error st; dragActive := dragActive st; panelOpen := panelOpen st;
     fontSize := fontSize st; angle := angle st; opacity := v;
     posX := posX st; posY := posY st |}.

Definition setPosX (v : number) (st : state) : state :=
  {| file := file st; watermarks := watermarks st; isProcessing := isProcessing st;
     error := error st; dragActive := dragActive st; panelOpen := panelOpen st;
     fontSize := fontSize st; angle := angle st; opacity := opacity st;
     posX := v; posY := posY st |}.

Definition setPosY (v : number) (st : state) : state :=
  {| file := file st; watermarks := watermarks st; isProcessing := isProcessing st;
     error := error st; dragActive := dragActive st; panelOpen := panelOpen st;
     fontSize := fontSize st; angle := angle st; opacity := opacity st;
     posX := posX st; posY := v |}.

(** [handleDrag], on an event of the given type. *)
Definition handleDrag (e_type : jsstring) (st : state) : state :=
  if bool_decide (e_type = str "dragenter") || bool_decide (e_type = str "dragover")
  then setDragActive true st
  else if bool_decide (e_type = str "dragleave") then setDragActive false st
  else st.

(** The file a list of files offers: [files && files[0]]. *)
Definition first_file (files : option (list DOMFile)) : option DOMFile :=
  match files with
  | Some (f :: _) => Some f
  | _ => None
  end.

(** The body shared by [handleDrop] and [handleFileChange]. *)
Definition take_file (files : option (list DOMFile)) (st : state) : state :=
  match first_file files with
  | Some f =>
      if bool_decide (type f = str "application/pdf")
      then setError [] (setFile (Some f) st)
      else setError (str "Please upload a PDF file") st
  | None => st
  end.

(** [handleDrop], [e.dataTransfer.files] being [files]. *)
Definition handleDrop (files : option (list DOMFile)) (st : state) : state :=
  take_file files (setDragActive false st).

(** [handleFileChange], [e.target.files] being [files]. *)
Definition handleFileChange (files : option (list DOMFile)) (st : state) : state :=
  take_file files st.

Definition removeFile (st : state) : state := setFile None st.

(** [watermarks.split(',').filter(w => w.trim()).length]. *)
Definition watermarkCount (st : state) : nat :=
  length (List.filter (fun w => match trim w with [] => false | _ => true end)
            (split comma (watermarks st))).

(** The [FormData] of [handleSubmit]. A part whose file has no type is
    sent as [application/octet-stream]. *)
Definition formData (f : DOMFile) (st : state) : request :=
  multipart {| mimetype := match type f with
                           | [] => str "application/octet-stream"
                           | t => t
                           end;
               buffer := bytes f |}
    (watermarks st) (Number_toString (fontSize st)) (Number_toString (angle st))
    (Number_toString (opacity st)) (Number_toString (posX st))
    (Number_toString (posY st)).

(** The two guards of [handleSubmit]: the message they set, or the
    request that goes out. *)
Definition guard (st : state) : result request :=
  match file st with
  | None => Throw (str "Please upload a PDF file")
  | Some f =>
      match trim (watermarks st) with
      | [] => Throw (str "Please enter at least one watermark text")
      | _ => Ok (formData f st)
      end
  end.

(** What [fetch] settles with. *)
Inductive fetched :=
| Answered (response : response)
| Rejected (message : jsstring).

(** The anchor the page clicks: the blob and the name to save it
    under. *)
Record download := { href : payload; download_name : jsstring }.

(** [response.ok]. *)
Definition ok (r : response) : bool := (200 <=? status r) && (status r <=? 299).

(** [response.headers.get(name)]: names compare without regard to case,
    and the values of a repeated header are joined. *)
Definition headers_get (name : jsstring) (r : response) : option jsstring :=
  match map snd (List.filter
                   (fun h => bool_decide (map ascii_lower (fst h) = map ascii_lower name))
                   (headers r)) with
  | [] => None
  | v :: vs => Some (fold_left (fun acc x => acc ++ str ", " ++ x) vs v)
  end.

(** [response.json()]. *)
Definition response_json (r : response) : result (list (jsstring * jsstring)) :=
  match body r with
  | Json members => Ok members
  | other => Throw (SyntaxError_message other)
  end.

(** The file name [handleSubmit] reads off the [Content-Disposition]
    header. *)
Definition filename_of (contentDisposition : option jsstring) : jsstring :=
  match contentDisposition with
  | Some (c :: r) =>
      match match_filename (c :: r) with
      | Some g => g
      | None => str "watermarked.pdf"
      end
  | _ => str "watermarked.pdf"
  end.

(** The [catch] block of [handleSubmit]. *)
Definition on_catch (message : jsstring) (st : state) : state * option download :=
  (setError (or_text (Some message) (str "An error occurred while processing your request")) st,
   None).

(** [handleSubmit] from the moment [fetch] settles. *)
Definition after_fetch (answer : fetched) (st : state) : state * option download :=
  let '(st, d) :=
    match answer with
    | Rejected message => on_catch message st
    | Answered response =>
        if negb (ok response)
        then match response_json response with
             | Throw message => on_catch message st
             | Ok errorData =>
                 on_catch (or_text (member (str "error") errorData)
                             (str "Failed to process PDF")) st
             end
        else (st, Some {| href := body response;
                          download_name :=
                            filename_of (headers_get (str "Content-Disposition") response) |})
    end in
  (setIsProcessing false st, d).

(** [handleSubmit], [fetch] being the network and the server behind
    it. *)
Definition handleSubmit (fetch : request -> fetched) (st : state)
  : state * option download :=
  match guard st with
  | Throw message => (setError message st, None)
  | Ok request => after_fetch (fetch request) (setError [] (setIsProcessing true st))
  end.

(** What the user and the page can do. *)
Inductive action :=
| Drag (e_type : jsstring)
| Drop (files : option (list DOMFile))
| Change (files : option (list DOMFile))
| Remove
| Type_watermarks (value : jsstring)
| Slide_fontSize (value : number)
| Slide_angle (value : number)
| Slide_opacity (value : number)
| Slide_posX (value : number)
| Slide_posY (value : number)
| Toggle_panel
| Close_panel
| Submit (fetch : request -> fetched).

Definition step (st : state) (a : action) : state :=
  match a with
  | Drag e_type => handleDrag e_type st
  | Drop files => handleDrop files st
  | Change files => handleFileChange files st
  | Remove => removeFile st
  | Type_watermarks value => setWatermarks value st
  | Slide_fontSize value => setFontSize value st
  | Slide_angle value => setAngle value st
  | Slide_opacity value => setOpacity value st
  | Slide_posX value => setPosX value st
  | Slide_posY value => setPosY value st
  | Toggle_panel => setPanelOpen (negb (panelOpen st)) st
  | Close_panel => setPanelOpen false st
  | Submit fetch => (handleSubmit fetch st).1
  end.

Definition run (actions : list action) (st : state) : state := fold_left step actions st.

End Page.
End App.

(** A browser for the examples: it prints the Numbers the examples use
    and reports every body that is not JSON with one message. *)
Definition fake_browser (host : Host) : Browser :=
  {| Number_toString := fun n =>
       if (n =? 30)%float then str "30"
       else if (n =? 55)%float then str "55"
       else if (n =? 0.5)%float then str "0.5"
       else if (n =? 50)%float then str "50"
       else str "NaN";
     SyntaxError_message := fun _ => str "Unexpected token '<'" |}.

(** A host whose buffers are known by their length only: every source
    has one page, and the remote service answers with the source. *)
Definition sized_host : Host :=
  {| Buffer := N;
     byteLength := fun b => b;
     PDFDocument_load := fun _ => Ok [letter];
     drawText_fault := fake_drawText_fault;
     toUpperCase := map ascii_upper;
     pdfServices := fun source _ _ => Ok source;
     createWriteStream_fault := fake_createWriteStream_fault;
     archiver_fault := fun _ => None;
     Date_now := fun n => repeat 49 (S n);
     Math_random := fun n => repeat 122 (S n);
     dirname := str "/srv/app" |}.

(** Two files of the user: a PDF and a text file. *)
Definition report_pdf : @App.DOMFile (fake_host true true None) :=
  {| App.name := str "report.pdf"; App.type := str "application/pdf";
     App.bytes := ([letter] : @Buffer (fake_host true true None)) |}.

Definition notes_txt : @App.DOMFile (fake_host true true None) :=
  {| App.name := str "notes.txt"; App.type := str "text/plain";
     App.bytes := ([letter] : @Buffer (fake_host true true None)) |}.

(** * Properties *)

(** ** The runtime functions on their documented examples *)

Example parseInt_examples :
  parseInt (Text (str "42")) = 42%float
  /\ parseInt (Text (str "  -17px")) = (-17)%float
  /\ parseInt (Text (str "0x1F")) = 31%float
  /\ parseInt (Text (str "9007199254740993")) = 9007199254740992%float
  /\ is_nan (parseInt (Text (str "px12"))) = true
  /\ is_nan (parseInt (Text [])) = true
  /\ is_nan (parseInt Absent) = true.
Proof. repeat split. Qed.

Example parseFloat_examples :
  parseFloat (Text (str "0.5")) = 0.5%float
  /\ parseFloat (Text (str "2.25abc")) = 2.25%float
  /\ parseFloat (Text (str "0.1")) = 0x1.999999999999ap-4%float
  /\ parseFloat (Text (str ".5e1")) = 5%float
  /\ parseFloat (Text (str "-0")) = (-0)%float
  /\ parseFloat (Text (str "1e400")) = infinity
  /\ is_nan (parseFloat (Text (str "."))) = true
  /\ is_nan (parseFloat Absent) = true.
Proof. repeat split. Qed.

Example path_examples :
  path_join [str "/srv/app"; str "output"] = str "/srv/app/output"
  /\ path_join [str "/srv/app/output"; str "../temp/./a//b.pdf"] = str "/srv/app/temp/a/b.pdf"
  /\ path_join [str ""; str "a.pdf"] = str "a.pdf"
  /\ path_join [str "a/"; str ".."] = str "."
  /\ basename (str "/srv/app/output/For_Alice.pdf") = str "For_Alice.pdf"
  /\ basename (str "/srv/app/output//") = str "output".
Proof. repeat split. Qed.

Example string_examples :
  trim (str "  For Alice	 ") = str "For Alice"
  /\ split comma (str "a,,b") = [str "a"; str ""; str "b"]
  /\ split comma (str "") = [str ""]
  /\ parse_watermarks (str "For Alice, For Bob ,, ") = [str "For Alice"; str "For Bob"]
  /\ sanitize (str "For  Alice & Bob!") = str "For_Alice_Bob".
Proof. repeat split. Qed.

(** ** Sanitising is not idempotent *)

Lemma is_space_underscore : is_space underscore = false.
Proof. reflexivity. Qed.

Lemma is_alnum_underscore : is_alnum underscore = false.
Proof. reflexivity. Qed.

(** Turns boolean range tests among the hypotheses into (in)equalities. *)
Ltac bool_to_prop :=
  repeat match goal with
         | H : _ || _ = true |- _ => apply orb_true_iff in H; destruct H as [H|H]
         | H : _ && _ = true |- _ => apply andb_true_iff in H; destruct H
         | H : _ || _ = false |- _ => apply orb_false_iff in H; destruct H
         | H : (_ <=? _) = true |- _ => apply N.leb_le in H
         | H : (_ =? _) = true |- _ => apply N.eqb_eq in H
         | H : (_ =? _) = false |- _ => apply N.eqb_neq in H
         end.

Lemma alnum_not_space c : is_alnum c = true -> is_space c = false.
Proof.
  intros H. destruct (is_space c) eqn:E; [exfalso|reflexivity].
  unfold is_alnum, is_space, in_range in *. bool_to_prop; lia.
Qed.

Lemma collapse_no_space b s : no_space s -> collapse_spaces b s = s.
Proof.
  intros H. revert b. induction H as [|c r Hc _ IH]; intros b; simpl.
  - reflexivity.
  - rewrite Hc. f_equal. apply IH.
Qed.

Lemma filter_alnum_no_space s : no_space (List.filter is_alnum s).
Proof.
  induction s as [|c r IH]; simpl.
  - constructor.
  - destruct (is_alnum c) eqn:E; [constructor; [now apply alnum_not_space|]|]; exact IH.
Qed.

(** Stripping what the first pass produced keeps the letters and digits
    only: white space is gone and the underscores are not in the class. *)
Lemma strip_collapse b s :
  strip_unsafe (collapse_spaces b (strip_unsafe s)) = List.filter is_alnum s.
Proof.
  revert b. induction s as [|c r IH]; intros b; simpl; [reflexivity|].
  destruct (is_alnum c) eqn:Ea; simpl.
  - rewrite (alnum_not_space c Ea). simpl. rewrite Ea. simpl. f_equal. apply IH.
  - destruct (is_space c) eqn:Es; simpl.
    + rewrite Es. destruct b; simpl; apply IH.
    + apply IH.
Qed.

Lemma sanitize_twice s : sanitize (sanitize s) = List.filter is_alnum s.
Proof.
  unfold sanitize. rewrite strip_collapse.
  apply collapse_no_space, filter_alnum_no_space.
Qed.

Lemma sanitize_no_space s : no_space s -> sanitize s = List.filter is_alnum s.
Proof.
  intros H. unfold sanitize.
  assert (E : strip_unsafe s = List.filter is_alnum s).
  { induction H as [|c r Hc _ IH]; simpl; [reflexivity|].
    rewrite Hc, orb_false_r. destruct (is_alnum c); [f_equal|]; exact IH. }
  rewrite E. apply collapse_no_space, filter_alnum_no_space.
Qed.

Lemma collapse_has_underscore b s :
  ~ no_space s -> In underscore (collapse_spaces b (strip_unsafe s))
                  \/ (b = true).
Proof.
  revert b. induction s as [|c r IH]; intros b H.
  - exfalso. apply H. constructor.
  - simpl. destruct (is_space c) eqn:Es.
    + rewrite orb_true_r. simpl. rewrite Es.
      destruct b; [now right|]. left. now left.
    + rewrite orb_false_r. destruct (is_alnum c) eqn:Ea.
      * simpl. rewrite Es. left. right.
        destruct (IH false) as [Hin|Hb]; [|exact Hin|discriminate].
        intros Hr. apply H. constructor; assumption.
      * apply IH. intros Hr. apply H. constructor; assumption.
Qed.

Lemma filter_alnum_no_underscore s : ~ In underscore (List.filter is_alnum s).
Proof.
  intros H. apply filter_In in H. destruct H as [_ H].
  rewrite is_alnum_underscore in H. discriminate.
Qed.

(** C2, as amended. Sanitizing twice gives what sanitizing once gives
    exactly when the phrase holds no white space: the underscores that
    the first pass puts in are deleted by the second. *)
Theorem sanitize_idempotent_iff s :
  sanitize (sanitize s) = sanitize s <-> no_space s.
Proof.
  split.
  - intros E.
    destruct (decide (Forall (fun c => is_space c = false) s)) as [Hs|Hs];
      [exact Hs|exfalso].
    rewrite sanitize_twice in E.
    destruct (collapse_has_underscore false s Hs) as [Hin|Hb]; [|discriminate].
    fold (sanitize s) in Hin. rewrite <- E in Hin.
    exact (filter_alnum_no_underscore s Hin).
  - intros Hs. rewrite sanitize_twice. symmetry. now apply sanitize_no_space.
Qed.

(** C2 fails as stated: the name of For Alice is For_Alice, and the name
    of For_Alice is ForAlice. *)
Lemma sanitize_not_idempotent :
  sanitize (str "For Alice") = str "For_Alice"
  /\ sanitize (sanitize (str "For Alice")) = str "ForAlice"
  /\ sanitize (sanitize (str "For Alice")) <> sanitize (str "For Alice").
Proof. repeat split. discriminate. Qed.

(** ** Trimming *)

Lemma trimStart_head_ok s : head_ok (trimStart s).
Proof.
  induction s as [|c r IH]; simpl; [exact I|].
  destruct (is_space c) eqn:E; [exact IH|exact E].
Qed.

Lemma trimStart_fixed s : head_ok s -> trimStart s = s.
Proof. destruct s as [|c r]; simpl; [reflexivity|]. now intros ->. Qed.

Lemma trimStart_suffix s : exists pre, s = pre ++ trimStart s.
Proof.
  induction s as [|c r [pre IH]]; simpl.
  - now exists [].
  - destruct (is_space c).
    + exists (c :: pre). simpl. now f_equal.
    + now exists [].
Qed.

Lemma trimEnd_prefix s : exists post, s = trimEnd s ++ post.
Proof.
  unfold trimEnd. destruct (trimStart_suffix (rev s)) as [pre E].
  exists (rev pre). rewrite <- rev_app_distr, <- E. symmetry. apply rev_involutive.
Qed.

Lemma trimEnd_head_ok s : head_ok s -> head_ok (trimEnd s).
Proof.
  intros H. destruct (trimEnd_prefix s) as [post E].
  destruct (trimEnd s) as [|c r]; [exact I|].
  rewrite E in H. exact H.
Qed.

Lemma trim_fixed s : head_ok s -> head_ok (rev s) -> trim s = s.
Proof.
  intros H1 H2. unfold trim, trimEnd.
  rewrite (trimStart_fixed s H1), (trimStart_fixed (rev s) H2).
  apply rev_involutive.
Qed.

Lemma trim_idempotent s : trim (trim s) = trim s.
Proof.
  apply trim_fixed.
  - apply trimEnd_head_ok, trimStart_head_ok.
  - unfold trim, trimEnd. rewrite rev_involutive. apply trimStart_head_ok.
Qed.

(** The phrases the handler hands to the orchestrator are trimmed and not
    empty. *)
Lemma parse_watermarks_trimmed s t :
  In t (parse_watermarks s) -> trim t = t /\ t <> [].
Proof.
  unfold parse_watermarks. intros H. apply filter_In in H. destruct H as [H Hlen].
  apply in_map_iff in H. destruct H as [u [<- _]]. split.
  - apply trim_idempotent.
  - intros E. rewrite E in Hlen. discriminate.
Qed.

(** ** Paths *)

Lemma split_nonempty sep s : split sep s <> [].
Proof.
  destruct s as [|c r]; simpl; [discriminate|].
  destruct (c =? sep); [discriminate|]. destruct (split sep r); discriminate.
Qed.

Lemma split_no_sep f : no_slash f -> split slash f = [f].
Proof.
  induction 1 as [|c r Hc _ IH]; simpl; [reflexivity|].
  apply N.eqb_neq in Hc. now rewrite Hc, IH.
Qed.

Lemma split_app a b : split slash (a ++ slash :: b) = split slash a ++ split slash b.
Proof.
  induction a as [|c r IH]; simpl.
  - reflexivity.
  - destruct (c =? slash); [now rewrite IH|].
    rewrite IH. pose proof (split_nonempty slash r) as Hne.
    destruct (split slash r); [contradiction|reflexivity].
Qed.

Lemma norm_step_plain allow res f : plain_name f -> norm_step allow res f = f :: res.
Proof.
  intros (_ & H0 & H1 & H2). unfold norm_step.
  repeat case_decide; try contradiction; reflexivity.
Qed.

Lemma join_with_snoc l f :
  join_with slash (l ++ [f]) =
  match l with [] => f | _ => join_with slash l ++ slash :: f end.
Proof.
  induction l as [|x r IH]; [reflexivity|].
  destruct r as [|y r']; [reflexivity|].
  change (join_with slash ((x :: y :: r') ++ [f]))
    with (x ++ slash :: join_with slash ((y :: r') ++ [f])).
  rewrite IH. simpl. rewrite <- app_assoc. reflexivity.
Qed.

Lemma last_plain pre f : plain_name f -> (List.last (pre ++ f) 0 =? slash) = false.
Proof.
  intros (Hs & Hne & _). apply N.eqb_neq.
  destruct (exists_last Hne) as [g [c ->]].
  rewrite app_assoc, last_last. apply Forall_app in Hs. destruct Hs as [_ Hc].
  now inversion Hc.
Qed.

Lemma split_dir_prefix pre f :
  dir_prefix pre -> no_slash f ->
  exists segs, split slash (pre ++ f) = segs ++ [f].
Proof.
  intros [->|[q ->]] Hf.
  - exists []. now apply split_no_sep.
  - exists (split slash q). rewrite <- app_assoc. simpl.
    rewrite split_app. now rewrite (split_no_sep f Hf).
Qed.

(** Normalising a path that ends with a plain file name keeps the name as
    the last segment. *)
Lemma normalize_keeps_name pre f :
  dir_prefix pre -> plain_name f ->
  exists x, normalize (pre ++ f) = x ++ f /\ dir_prefix x.
Proof.
  intros Hpre Hf. pose proof Hf as (Hs & Hne & _).
  destruct (split_dir_prefix pre f Hpre Hs) as [segs Hsegs].
  unfold normalize. destruct (pre ++ f) as [|c p'] eqn:Ep.
  { apply app_eq_nil in Ep. destruct Ep as [_ ->]. contradiction. }
  pose proof (last_plain pre f Hf) as Hl. rewrite Ep in Hl.
  assert (Hbody : forall allow,
             join_with slash (rev (fold_left (norm_step allow) (segs ++ [f]) [])) =
             match rev (fold_left (norm_step allow) segs []) with
             | [] => f
             | _ => join_with slash (rev (fold_left (norm_step allow) segs []))
                      ++ slash :: f
             end).
  { intros allow. rewrite fold_left_app. simpl fold_left.
    rewrite (norm_step_plain _ _ f Hf). simpl rev. apply join_with_snoc. }
  rewrite Hsegs, Hl, Hbody, app_nil_r.
  set (res := rev _).
  destruct res as [|s0 res'].
  - destruct f as [|c0 f']; [contradiction|].
    destruct (c =? slash).
    + exists [slash]. split; [reflexivity|]. right. now exists [].
    + exists []. split; [reflexivity|]. now left.
  - assert (Hb : exists b0 b', join_with slash (s0 :: res') ++ slash :: f = b0 :: b').
    { destruct (join_with slash (s0 :: res')); simpl; eauto. }
    destruct Hb as (b0 & b' & Hb). rewrite Hb, <- Hb.
    exists ((if c =? slash then [slash] else []) ++ join_with slash (s0 :: res') ++ [slash]).
    split.
    + rewrite <- !app_assoc. reflexivity.
    + right. exists ((if c =? slash then [slash] else []) ++ join_with slash (s0 :: res')).
      now rewrite <- app_assoc.
Qed.

Lemma until_slash_app a b :
  no_slash a -> (b = [] \/ exists b', b = slash :: b') -> until_slash (a ++ b) = a.
Proof.
  intros Ha Hb. induction Ha as [|c r Hc _ IH]; simpl.
  - destruct Hb as [->|[b' ->]]; reflexivity.
  - apply N.eqb_neq in Hc. rewrite Hc. now f_equal.
Qed.

Lemma basename_of_name x f : dir_prefix x -> plain_name f -> basename (x ++ f) = f.
Proof.
  intros Hx (Hs & Hne & _). unfold basename. rewrite rev_app_distr.
  assert (Hr : no_slash (rev f)) by (apply Forall_rev; exact Hs).
  assert (Hd : drop_slashes (rev f ++ rev x) = rev f ++ rev x).
  { destruct (rev f) as [|c r] eqn:E.
    - apply (f_equal (@rev N)) in E. rewrite rev_involutive in E. contradiction.
    - simpl. inversion Hr as [|? ? Hc _]. apply N.eqb_neq in Hc. now rewrite Hc. }
  rewrite Hd, until_slash_app; [apply rev_involutive|exact Hr|].
  destruct Hx as [->|[q ->]]; [now left|right].
  rewrite rev_app_distr. simpl. eauto.
Qed.

Lemma path_join_file dir f :
  f <> [] -> exists pre, dir_prefix pre /\ path_join [dir; f] = normalize (pre ++ f).
Proof.
  intros Hne. destruct f as [|c0 f']; [contradiction|].
  destruct dir as [|d0 dir'].
  - exists []. split; [now left|reflexivity].
  - exists ((d0 :: dir') ++ [slash]). split; [right; eauto|].
    unfold path_join. cbn [List.filter length Nat.eqb negb join_with].
    rewrite <- app_assoc. reflexivity.
Qed.

(** The base name of a file joined to a directory is the file's name. *)
Lemma basename_path_join dir f : plain_name f -> basename (path_join [dir; f]) = f.
Proof.
  intros Hf. pose proof Hf as (_ & Hne & _).
  destruct (path_join_file dir f Hne) as (pre & Hp & ->).
  destruct (normalize_keeps_name pre f Hp Hf) as (x & -> & Hx).
  now apply basename_of_name.
Qed.

Lemma sanitize_chars b s :
  Forall (fun c => is_alnum c = true \/ c = underscore) (collapse_spaces b (strip_unsafe s)).
Proof.
  revert b. induction s as [|c r IH]; intros b; simpl; [constructor|].
  destruct (is_alnum c) eqn:Ea; simpl.
  - rewrite (alnum_not_space c Ea). constructor; [now left|apply IH].
  - destruct (is_space c) eqn:Es; simpl; [|apply IH].
    rewrite Es. destruct b; [apply IH|]. constructor; [now right|apply IH].
Qed.

(** The file name the orchestrator derives from a phrase is a plain name. *)
Lemma output_name_plain text : plain_name (sanitize text ++ str ".pdf").
Proof.
  assert (Hs : no_slash (sanitize text)).
  { eapply List.Forall_impl; [|apply (sanitize_chars false)]. intros c [H | ->] E.
    - rewrite E in H. discriminate.
    - discriminate. }
  repeat split.
  - apply Forall_app. split; [exact Hs|]. repeat constructor; discriminate.
  - destruct (sanitize text); discriminate.
  - destruct (sanitize text) as [|? [|? ?]]; discriminate.
  - destruct (sanitize text) as [|? [|? [|? ?]]]; discriminate.
Qed.

(** ** The orchestrator *)

Section ServiceFacts.
Context {host : Host}.

(** What one call of [applyWatermark] does, by what the overlay builder,
    the remote service and the output stream answer. *)
Lemma applyWatermark_run input text p o w :
  let r := applyWatermark input text p o w in
  tick r.2 = (tick w + 4)%nat /\
  match createWatermarkPdf input text o with
  | Throw e => r.1 = Throw e /\ out r.2 = out w /\ log r.2 = log w ++ [BuildOverlay text]
  | Ok d =>
      log r.2 = log w ++ [BuildOverlay text; RemoteJob d] /\
      match pdfServices input d job_appearance with
      | Throw e => r.1 = Throw e /\ out r.2 = out w
      | Ok b =>
          match createWriteStream_fault (existsSync (out w)) p with
          | Some e => r.1 = Throw e /\ out r.2 = out w
          | None => r.1 = Ok p /\ out r.2 = <[p := File (Raw b)]> (out w)
          end
      end
  end.
Proof.
  unfold applyWatermark, job_appearance.
  unfold mbind, M_bind, mret, M_ret, reading, observe, finally, trace, update, lift.
  destruct (existsSync (tmp w) _); simpl;
    destruct (createWatermarkPdf input text o) as [d|e]; simpl;
    try destruct (pdfServices input d _) as [b|e]; simpl;
    try destruct (createWriteStream_fault (existsSync (out w)) p) as [e'|]; simpl;
    rewrite <- ?app_assoc; repeat split; reflexivity || lia.
Qed.

(** Nothing the service writes under the output root is removed by
    [applyWatermark]. *)
Lemma applyWatermark_keeps input text p o w q :
  is_Some (out w !! q) -> is_Some (out (applyWatermark input text p o w).2 !! q).
Proof.
  intros Hq. pose proof (applyWatermark_run input text p o w) as [_ H].
  destruct (createWatermarkPdf input text o) as [d|e].
  - destruct H as [_ H]. destruct (pdfServices input d job_appearance) as [b|e];
      [destruct (createWriteStream_fault (existsSync (out w)) p) as [e|]|];
      destruct H as [_ ->]; try exact Hq.
    destruct (decide (p = q)) as [->|Hne].
    + rewrite lookup_insert_eq. eauto.
    + now rewrite lookup_insert_ne.
  - destruct H as (_ & -> & _). exact Hq.
Qed.

Lemma watermark_loop_keeps input dir o texts acc w q :
  is_Some (out w !! q) ->
  is_Some (out (watermark_loop input dir o texts acc w).2 !! q).
Proof.
  revert acc w. induction texts as [|t rest IH]; intros acc w Hq; [exact Hq|].
  simpl. destruct (trim t) as [|c u]; [now apply IH|].
  unfold mbind, M_bind.
  pose proof (applyWatermark_keeps input (c :: u)
                (path_join [dir; sanitize (c :: u) ++ str ".pdf"]) o w q Hq) as Hk.
  destruct (applyWatermark _ _ _ _ w) as [[a|e] w1]; [now apply IH|exact Hk].
Qed.

(** Whatever the orchestrator returns, it is one path per kept phrase, in
    the order of the phrases. *)
Lemma watermark_loop_paths input dir o texts acc w paths w' :
  watermark_loop input dir o texts acc w = (Ok paths, w') ->
  paths = acc ++ map (output_path dir) (kept_phrases texts).
Proof.
  revert acc w. induction texts as [|t rest IH]; intros acc w; simpl.
  - unfold mret, M_ret. intros [= <- _]. now rewrite app_nil_r.
  - unfold kept_phrases. simpl. destruct (trim t) as [|c u] eqn:Et; simpl.
    + apply IH.
    + unfold mbind, M_bind.
      destruct (applyWatermark _ _ _ _ w) as [[a|e] w1]; [|discriminate].
      intros H. apply IH in H. rewrite H, <- app_assoc. reflexivity.
Qed.

Lemma watermark_loop_total input dir o texts acc w :
  existsSync (out w) dir = true ->
  Forall (fun t => processable input o t /\ writable dir t) (kept_phrases texts) ->
  exists w', watermark_loop input dir o texts acc w
             = (Ok (acc ++ map (output_path dir) (kept_phrases texts)), w').
Proof.
  revert acc w. induction texts as [|t rest IH]; intros acc w Hdir; simpl.
  - intros _. exists w. now rewrite app_nil_r.
  - unfold kept_phrases. simpl. destruct (trim t) as [|c u] eqn:Et; simpl.
    + now apply IH.
    + intros H. inversion H as [|? ? [(d & b & Hd & Hb) Hwr] Hrest]; subst.
      unfold mbind, M_bind.
      pose proof (applyWatermark_run input (c :: u)
                    (path_join [dir; sanitize (c :: u) ++ str ".pdf"]) o w) as [_ Hr].
      pose proof (applyWatermark_keeps input (c :: u)
                    (path_join [dir; sanitize (c :: u) ++ str ".pdf"]) o w dir) as Hk.
      rewrite Hd, Hb in Hr. fold (output_path dir (c :: u)) in Hr.
      rewrite (Hwr _ Hdir) in Hr. destruct Hr as (_ & Hr & _).
      destruct (applyWatermark _ _ _ _ w) as [r w1]. simpl in Hr, Hk. subst r.
      assert (Hdir1 : existsSync (out w1) dir = true).
      { apply bool_decide_eq_true, Hk. now apply bool_decide_eq_true in Hdir. }
      destruct (IH (acc ++ [output_path dir (c :: u)]) w1 Hdir1 Hrest) as [w' Hw'].
      exists w'. unfold output_path in *. rewrite Hw', <- app_assoc. reflexivity.
Qed.

Lemma processMultipleWatermarks_paths input texts dir o w paths w' :
  processMultipleWatermarks input texts dir o w = (Ok paths, w') ->
  paths = map (output_path dir) (kept_phrases texts).
Proof.
  unfold processMultipleWatermarks, mbind, M_bind.
  destruct (existsSync (out w) dir); intros H;
    now apply watermark_loop_paths in H.
Qed.

(** The session directory exists once the orchestrator has run, however
    it ended. *)
Lemma processMultipleWatermarks_dir input texts dir o w :
  existsSync (out (processMultipleWatermarks input texts dir o w).2) dir = true.
Proof.
  unfold processMultipleWatermarks, mbind, M_bind, existsSync.
  apply bool_decide_eq_true.
  case_bool_decide as Hd; apply watermark_loop_keeps.
  - exact Hd.
  - simpl. rewrite lookup_insert_eq. eauto.
Qed.

(** When the source parses and has a page, an overlay can be built
    whenever the PDF library accepts what is drawn. *)
Lemma createWatermarkPdf_total input text o pages :
  PDFDocument_load input = Ok pages -> pages <> [] ->
  (forall call, dt_text call = toUpperCase text -> drawText_fault call = None) ->
  exists d, createWatermarkPdf input text o = Ok d.
Proof.
  intros Hl Hne Hdraw. unfold createWatermarkPdf. rewrite Hl.
  destruct (Z.ltb_spec (Z.min 2 (Z.of_nat (length pages) - 1)) 0) as [Hlt|Hge].
  - destruct pages; [contradiction|]. simpl length in Hlt. lia.
  - destruct (pages !! Z.to_nat (Z.min 2 (Z.of_nat (length pages) - 1))) eqn:E.
    + cbv zeta. rewrite Hdraw by reflexivity. eauto.
    + apply lookup_ge_None in E. destruct pages; [contradiction|]. simpl length in *. lia.
Qed.

(** A result written under the output root stays a written result. *)
Lemma applyWatermark_written input text p o w q :
  written (out w) q -> written (out (applyWatermark input text p o w).2) q.
Proof.
  intros Hq. pose proof (applyWatermark_run input text p o w) as [_ H].
  destruct (createWatermarkPdf input text o) as [d|e].
  - destruct H as [_ H]. destruct (pdfServices input d job_appearance) as [b|e];
      [destruct (createWriteStream_fault (existsSync (out w)) p) as [e|]|];
      destruct H as [_ H]; unfold written; rewrite H; try exact Hq.
    destruct (decide (p = q)) as [->|Hne].
    + rewrite lookup_insert_eq. eauto.
    + now rewrite lookup_insert_ne.
  - destruct H as (_ & H & _). unfold written. rewrite H. exact Hq.
Qed.

Lemma watermark_loop_written input dir o texts acc w paths w' :
  watermark_loop input dir o texts acc w = (Ok paths, w') ->
  Forall (written (out w)) acc -> Forall (written (out w')) paths.
Proof.
  revert acc w. induction texts as [|t rest IH]; intros acc w; simpl.
  - unfold mret, M_ret. intros [= <- <-]. auto.
  - destruct (trim t) as [|c u] eqn:Et; [apply IH|].
    unfold mbind, M_bind.
    pose proof (applyWatermark_run input (c :: u)
                  (path_join [dir; sanitize (c :: u) ++ str ".pdf"]) o w) as [_ Hr].
    pose proof (applyWatermark_written input (c :: u)
                  (path_join [dir; sanitize (c :: u) ++ str ".pdf"]) o w) as Hk.
    destruct (applyWatermark _ _ _ _ w) as [[a|e] w1]; [|discriminate].
    intros H Hacc. apply (IH _ _ H). apply Forall_app. split.
    + eapply List.Forall_impl; [|exact Hacc]. intros q Hq. now apply Hk.
    + constructor; [|constructor].
      destruct (createWatermarkPdf input (c :: u) o) as [d|e];
        [|destruct Hr as [Hr _]; discriminate].
      destruct Hr as [_ Hr].
      destruct (pdfServices input d job_appearance) as [b|e];
        [destruct (createWriteStream_fault (existsSync (out w)) _) as [e|]|];
        destruct Hr as [Hr1 Hr2]; try discriminate.
      simpl in Hr2. exists b. rewrite Hr2. apply lookup_insert_eq.
Qed.

Lemma processMultipleWatermarks_written input texts dir o w paths w' :
  processMultipleWatermarks input texts dir o w = (Ok paths, w') ->
  Forall (written (out w')) paths.
Proof.
  unfold processMultipleWatermarks, mbind, M_bind.
  destruct (existsSync (out w) dir); intros H;
    apply (watermark_loop_written _ _ _ _ _ _ _ _ H); constructor.
Qed.

Lemma processMultipleWatermarks_total input texts dir o w :
  Forall (fun t => processable input o t /\ writable dir t) (kept_phrases texts) ->
  exists w', processMultipleWatermarks input texts dir o w
             = (Ok (map (output_path dir) (kept_phrases texts)), w').
Proof.
  intros H. unfold processMultipleWatermarks, mbind, M_bind.
  destruct (existsSync (out w) dir) eqn:Hdir;
    apply (watermark_loop_total input dir o texts []); try exact H; try exact Hdir.
  unfold existsSync. apply bool_decide_eq_true. cbn [set_out out].
  rewrite lookup_insert_eq. eauto.
Qed.

(** ** The endpoint *)

Lemma parse_watermarks_kept s : kept_phrases (parse_watermarks s) = parse_watermarks s.
Proof.
  unfold kept_phrases.
  assert (H : forall t, In t (parse_watermarks s) -> trim t = t /\ t <> [])
    by apply parse_watermarks_trimmed.
  induction (parse_watermarks s) as [|t l IH]; [reflexivity|].
  simpl. destruct (H t (or_introl eq_refl)) as [Ht Hne]. rewrite Ht.
  destruct t as [|c u]; [contradiction|]. simpl. f_equal.
  apply IH. intros t' Ht'. apply H. now right.
Qed.

(** Past validation the handler runs the orchestrator and branches on
    what it gives. *)
Lemma handler_processing file b w s :
  watermarks b = Text s -> parse_watermarks s <> [] ->
  handler (Some file) b w =
  match processMultipleWatermarks (buffer file) (parse_watermarks s) (session_dir w)
          (parse_options b) (in_session w) with
  | (Throw message, w1) => on_error (session_dir w) message w1
  | (Ok [], w1) => reply (json 500 [(str "error", str "No files were generated")]) w1
  | (Ok [filePath], w1) => send_single (session_dir w) filePath w1
  | (Ok outputPaths, w1) =>
      send_zip (path_join [dirname; str "output"]) (session_dir w) outputPaths w1
  end.
Proof.
  intros Hw Hne. unfold handler. simpl. rewrite Hw.
  destruct s as [|c text]; [contradiction Hne; reflexivity|].
  destruct (parse_watermarks (c :: text)) as [|t ts] eqn:E; [contradiction|].
  reflexivity.
Qed.

Lemma route_accepts r file w :
  req_file r = Some file -> mimetype file = str "application/pdf" ->
  byteLength (buffer file) <= fileSize_limit ->
  watermark_route r w = handler (Some file) (req_body r) w.
Proof.
  intros Hf Hm Hs. unfold watermark_route, upload_single, fileFilter.
  rewrite Hf. rewrite decide_True by exact Hm.
  apply N.ltb_ge in Hs. now rewrite Hs.
Qed.

Lemma rmSync_gone d store p : at_or_below d p = true -> rmSync d store !! p = None.
Proof.
  intros H. unfold rmSync. apply map_lookup_filter_None. right.
  intros x _. simpl. rewrite H. discriminate.
Qed.



Lemma reference_page_index pages :
  pages !! Nat.min 2 (length pages - 1) = reference_page pages.
Proof. destruct pages as [|p1 [|p2 [|p3 l]]]; reflexivity. Qed.

(** C3, as amended. Whenever the overlay generator returns, what it returns is a
    document of one page, as wide and as high as the page of the source
    at index min(2, last index) (the third page, or the last of a shorter
    document), with one text: the phrase in upper case, at
    (posX/100 * width, posY/100 * height), rotated by the angle option,
    at the opacity option, in Times Roman at the fontSize option. And it
    does return for every source that parses and has a page, when the PDF
    library accepts that text; when the library refuses it, the generator
    throws the library's error, as it throws the parser's error for a
    source that does not parse, and a TypeError for a source without
    pages. *)
Theorem createWatermarkPdf_overlay
    source text (size_pt angle_deg alpha x_pct y_pct : number) :
  let o := {| fontSize := Some size_pt; angle := Some angle_deg; opacity := Some alpha;
              posX := Some x_pct; posY := Some y_pct |} in
  let drawn ref := {| dt_text := toUpperCase text;
                      dt_x := (x_pct / 100 * width ref)%float;
                      dt_y := (y_pct / 100 * height ref)%float;
                      dt_size := size_pt;
                      dt_font := TimesRoman;
                      dt_color := rgb 0.5%float 0.5%float 0.5%float;
                      dt_opacity := alpha;
                      dt_rotate := degrees angle_deg |} in
  let overlay ref := {| doc_pages :=
                          [ {| page_size := {| width := width ref; height := height ref |};
                               page_content := [drawn ref] |} ] |} in
  (forall d,
      createWatermarkPdf source text o = Ok d ->
      exists pages ref,
        PDFDocument_load source = Ok pages
        /\ pages !! Nat.min 2 (length pages - 1) = Some ref
        /\ reference_page pages = Some ref
        /\ d = overlay ref)
  /\ (forall pages,
        PDFDocument_load source = Ok pages -> pages <> [] ->
        exists ref,
          pages !! Nat.min 2 (length pages - 1) = Some ref
          /\ reference_page pages = Some ref
          /\ (drawText_fault (drawn ref) = None ->
              createWatermarkPdf source text o = Ok (overlay ref))
          /\ (forall e, drawText_fault (drawn ref) = Some e ->
                        createWatermarkPdf source text o = Throw e))
  /\ (forall e, PDFDocument_load source = Throw e ->
                createWatermarkPdf source text o = Throw e)
  /\ (PDFDocument_load source = Ok [] ->
      createWatermarkPdf source text o
      = Throw (str "Cannot read properties of undefined (reading 'getSize')")).
Proof.
  intros o drawn overlay.
  assert (Hi : forall pages : list size, pages <> [] ->
            Z.min 2 (Z.of_nat (length pages) - 1)
            = Z.of_nat (Nat.min 2 (length pages - 1))).
  { intros pages Hne. destruct pages; [contradiction|]. simpl length. lia. }
  split; [|split].
  - intros d. unfold createWatermarkPdf.
    destruct (PDFDocument_load source) as [pages|e]; [|discriminate].
    destruct pages as [|p0 rest]; [discriminate|].
    rewrite (Hi (p0 :: rest)) by discriminate. rewrite Nat2Z.id.
    destruct (Z.ltb_spec (Z.of_nat (Nat.min 2 (length (p0 :: rest) - 1))) 0); [lia|].
    destruct ((p0 :: rest) !! Nat.min 2 (length (p0 :: rest) - 1)) as [ref|] eqn:E;
      [|discriminate].
    cbv zeta. cbn [default from_option fontSize angle opacity posX posY o]. unfold id.
    fold (drawn ref). destruct (drawText_fault (drawn ref)); [discriminate|].
    intros [= <-]. exists (p0 :: rest), ref. split; [reflexivity|].
    split; [exact E|]. split; [now rewrite <- reference_page_index|reflexivity].
  - intros pages Hl Hne.
    destruct (pages !! Nat.min 2 (length pages - 1)) as [ref|] eqn:E.
    + exists ref. split; [reflexivity|]. split; [now rewrite <- reference_page_index|].
      assert (Hrun : createWatermarkPdf source text o
                     = match drawText_fault (drawn ref) with
                       | Some e => Throw e
                       | None => Ok (overlay ref)
                       end).
      { unfold createWatermarkPdf. rewrite Hl.
        rewrite (Hi pages Hne), Nat2Z.id, E.
        destruct (Z.ltb_spec (Z.of_nat (Nat.min 2 (length pages - 1))) 0); [lia|].
        reflexivity. }
      split; [intros Hdraw|intros e Hdraw]; now rewrite Hrun, Hdraw.
    + apply lookup_ge_None in E. destruct pages; [contradiction|]. simpl length in E. lia.
  - split.
    + intros e Hl. unfold createWatermarkPdf. now rewrite Hl.
    + intros Hl. unfold createWatermarkPdf. now rewrite Hl.
Qed.

(** X2. A source that parses to no page at all has no reference page: the
    generator throws the TypeError of reading [getSize] of [undefined]. *)
Theorem createWatermarkPdf_no_page source text o :
  PDFDocument_load source = Ok [] ->
  createWatermarkPdf source text o
  = Throw (str "Cannot read properties of undefined (reading 'getSize')").
Proof. intros Hl. unfold createWatermarkPdf. now rewrite Hl. Qed.

(** C4. When the orchestrator returned exactly one path, the response is
    that file, piped with content type application/pdf and a
    Content-Disposition whose file name is the base name of the path;
    when it returned two or more (and the archiver does not fail), the
    response is a ZIP archive with one entry per phrase, each named by
    the base name of the corresponding path. *)
Theorem packager_response file b w s outputPaths w1 :
  watermarks b = Text s -> parse_watermarks s <> [] ->
  processMultipleWatermarks (buffer file) (parse_watermarks s) (session_dir w)
    (parse_options b) (in_session w) = (Ok outputPaths, w1) ->
  (forall filePath, outputPaths = [filePath] ->
     exists bytes,
       out w1 !! filePath = Some (File (Raw bytes))
       /\ sent (handler (Some file) b w)
          = {| status := 200;
               headers := [(str "Content-Type", str "application/pdf");
                           (str "Content-Disposition",
                            str "attachment; filename="
                              ++ quote :: basename filePath ++ [quote])];
               body := Piped (Some (Raw bytes)) |})
  /\ ((2 <= length outputPaths)%nat ->
      archiver_fault (map (fun p => (p, basename p)) outputPaths) = None ->
      exists zipFileName entries,
        sent (handler (Some file) b w)
        = {| status := 200;
             headers := [(str "Content-Type", str "application/zip");
                         (str "Content-Disposition",
                          str "attachment; filename="
                            ++ quote :: zipFileName ++ [quote])];
             body := Piped (Some (Zip entries)) |}
        /\ map fst entries = map basename outputPaths
        /\ length entries = length (parse_watermarks s)).
Proof.
  intros Hw Hne Hrun. rewrite (handler_processing file b w s Hw Hne), Hrun. split.
  - intros filePath ->.
    pose proof (processMultipleWatermarks_written _ _ _ _ _ _ _ Hrun) as Hwr.
    inversion Hwr as [|? ? [bytes Hb] _]; subst.
    exists bytes. split; [exact Hb|].
    unfold send_single, read. simpl. now rewrite Hb.
  - intros Hlen Hok.
    destruct outputPaths as [|p1 [|p2 l]]; simpl in Hlen; try lia.
    unfold send_zip, observe. cbv beta iota zeta. rewrite Hok.
    eexists _, _. split; [|split].
    + cbn [sent out set_out]. unfold read. rewrite lookup_insert_eq. reflexivity.
    + rewrite map_map. reflexivity.
    + rewrite length_map.
      rewrite (processMultipleWatermarks_paths _ _ _ _ _ _ _ Hrun).
      now rewrite length_map, parse_watermarks_kept.
Qed.

(** C5. With the phrase list For Alice, For Bob, both phrases being
    processed (overlay built, composited, written), the archive holds
    exactly the entries For_Alice.pdf and For_Bob.pdf, in that order. *)
Theorem alice_and_bob_archive r file w s :
  req_file r = Some file -> mimetype file = str "application/pdf" ->
  byteLength (buffer file) <= fileSize_limit ->
  watermarks (req_body r) = Text s ->
  parse_watermarks s = [str "For Alice"; str "For Bob"] ->
  Forall (fun t => processable (buffer file) (parse_options (req_body r)) t
                   /\ writable (session_dir w) t)
    [str "For Alice"; str "For Bob"] ->
  (forall queued, archiver_fault queued = None) ->
  exists entries,
    body (sent (watermark_route r w)) = Piped (Some (Zip entries))
    /\ map fst entries = [str "For_Alice.pdf"; str "For_Bob.pdf"].
Proof.
  intros Hf Hm Hsz Hw Hp Hproc Ha.
  rewrite (route_accepts r file w Hf Hm Hsz).
  assert (Hne' : parse_watermarks s <> []) by (rewrite Hp; discriminate).
  rewrite (handler_processing file _ w s Hw Hne').
  destruct (processMultipleWatermarks_total (buffer file) (parse_watermarks s)
              (session_dir w) (parse_options (req_body r)) (in_session w)) as [w1 Hrun].
  { rewrite parse_watermarks_kept, Hp. exact Hproc. }
  rewrite Hrun, parse_watermarks_kept, Hp. cbn [map].
  unfold send_zip, observe. cbv beta iota zeta. rewrite Ha.
  eexists. split.
  - cbn [sent body out set_out]. unfold read. rewrite lookup_insert_eq. reflexivity.
  - cbn [map fst]. unfold output_path.
    rewrite !basename_path_join by apply output_name_plain. reflexivity.
Qed.

(** C8, as amended. When processing fails after validation with an error
    that reaches the handler's [catch] (the source does not parse, the
    remote service fails), the response is a 500 with a JSON body that
    carries the error's message as [details], nothing is left at or
    below the session directory, and no timer is set. *)
Theorem processing_error_response file b w s message w1 :
  watermarks b = Text s -> parse_watermarks s <> [] ->
  processMultipleWatermarks (buffer file) (parse_watermarks s) (session_dir w)
    (parse_options b) (in_session w) = (Throw message, w1) ->
  sent (handler (Some file) b w)
  = json 500 [(str "error", str "Failed to process watermark request");
              (str "details", message)]
  /\ (forall p, at_or_below (session_dir w) p = true ->
                out (world_after (handler (Some file) b w)) !! p = None)
  /\ timers (handler (Some file) b w) = [].
Proof.
  intros Hw Hne Hrun. rewrite (handler_processing file b w s Hw Hne), Hrun.
  repeat split. intros p Hp. unfold on_error. simpl.
  pose proof (processMultipleWatermarks_dir (buffer file) (parse_watermarks s)
                (session_dir w) (parse_options b) (in_session w)) as Hd.
  rewrite Hrun in Hd. simpl in Hd. rewrite Hd. simpl. now apply rmSync_gone.
Qed.

(** C7, on the code. A file part whose MIME type is not application/pdf
    never reaches the handler: the filter's error goes to the framework,
    which answers 500 with an HTML page, not a 4xx with a JSON body. The
    world is left as it was: no overlay, no remote job, no file, no
    timer. *)
Theorem non_pdf_upload_response r file w :
  req_file r = Some file -> mimetype file <> str "application/pdf" ->
  sent (watermark_route r w)
  = {| status := 500;
       headers := [(str "Content-Type", str "text/html; charset=utf-8")];
       body := ErrorPage (str "Only PDF files are allowed") |}
  /\ world_after (watermark_route r w) = w
  /\ timers (watermark_route r w) = [].
Proof.
  intros Hf Hm. unfold watermark_route, upload_single, fileFilter.
  rewrite Hf. rewrite decide_False by exact Hm. repeat split.
Qed.

(** X1. The other validation errors are answered by the handler itself:
    a 400 with a JSON body of one member, [error]; no file is written,
    no overlay is built, no remote job is started and no timer is set. *)
Theorem validation_error_response r w :
  req_file r = None \/
  (exists file s, req_file r = Some file /\ upload_single r = Ok (Some file)
                  /\ watermarks (req_body r) = Text s /\ parse_watermarks s = []) \/
  (exists file, req_file r = Some file /\ upload_single r = Ok (Some file)
                /\ forall s, watermarks (req_body r) <> Text s) ->
  (exists message, sent (watermark_route r w) = json 400 [(str "error", message)])
  /\ out (world_after (watermark_route r w)) = out w
  /\ tmp (world_after (watermark_route r w)) = tmp w
  /\ log (world_after (watermark_route r w)) = log w
  /\ timers (watermark_route r w) = [].
Proof.
  intros [Hf|[(file & s & Hf & Hu & Hw & Hp)|(file & Hf & Hu & Hw)]];
    unfold watermark_route.
  - unfold upload_single. rewrite Hf. unfold handler. simpl. eauto 10.
  - rewrite Hu. unfold handler. simpl. rewrite Hw.
    destruct s as [|c text]; [simpl; eauto 10|]. rewrite Hp. simpl. eauto 10.
  - rewrite Hu. unfold handler. simpl.
    destruct (watermarks (req_body r)) as [|s|shown]; simpl; eauto 10.
    destruct s as [|c text]; [simpl; eauto 10|]. now destruct (Hw (c :: text)).
Qed.

(** One turn of the loop on a phrase that is processed. *)
Lemma watermark_loop_step input dir o t rest acc w d b :
  trim t = t -> t <> [] ->
  createWatermarkPdf input t o = Ok d -> pdfServices input d job_appearance = Ok b ->
  existsSync (out w) dir = true -> writable dir t ->
  exists w1,
    out w1 = <[output_path dir t := File (Raw b)]> (out w)
    /\ watermark_loop input dir o (t :: rest) acc w
       = watermark_loop input dir o rest (acc ++ [output_path dir t]) w1.
Proof.
  intros Ht Hne Hd Hb Hdir Hwr. simpl. rewrite Ht.
  destruct t as [|c u]; [contradiction|].
  unfold mbind, M_bind.
  pose proof (applyWatermark_run input (c :: u) (output_path dir (c :: u)) o w) as [_ Hr].
  rewrite Hd, Hb, (Hwr _ Hdir) in Hr. destruct Hr as (_ & Hr1 & Hr2).
  unfold output_path in *.
  destruct (applyWatermark _ _ _ _ w) as [r w1]. simpl in Hr1, Hr2. subst r.
  exists w1. split; [exact Hr2|reflexivity].
Qed.

(** C10, as amended. Distinct phrases can have one sanitized file name,
    For Alice and For. Alice for example (For.Alice does not: its name is
    ForAlice). For two such phrases, both processed and their one path
    writable, the orchestrator writes both results to that path, the
    second over the first, and returns the path twice. *)
Theorem colliding_names_overwrite :
  (str "For Alice" <> str "For. Alice"
   /\ sanitize (str "For Alice") = sanitize (str "For. Alice"))
  /\ forall input dir o w t1 t2 d1 d2 b1 b2,
      trim t1 = t1 -> t1 <> [] -> trim t2 = t2 -> t2 <> [] ->
      sanitize t1 = sanitize t2 ->
      createWatermarkPdf input t1 o = Ok d1 ->
      pdfServices input d1 job_appearance = Ok b1 ->
      createWatermarkPdf input t2 o = Ok d2 ->
      pdfServices input d2 job_appearance = Ok b2 ->
      writable dir t1 ->
      exists w',
        processMultipleWatermarks input [t1; t2] dir o w
        = (Ok [output_path dir t1; output_path dir t1], w')
        /\ output_path dir t2 = output_path dir t1
        /\ out w' !! output_path dir t1 = Some (File (Raw b2)).
Proof.
  split; [split; [discriminate|reflexivity]|].
  intros input dir o w t1 t2 d1 d2 b1 b2 Ht1 Hn1 Ht2 Hn2 Hs Hd1 Hb1 Hd2 Hb2 Hwr1.
  assert (Hp : output_path dir t2 = output_path dir t1)
    by (unfold output_path; now rewrite Hs).
  assert (Hwr2 : writable dir t2) by (intros present Hpr; rewrite Hp; now apply Hwr1).
  unfold processMultipleWatermarks, mbind, M_bind.
  set (w0 := if existsSync (out w) dir then w else set_out <[dir:=Dir]> w).
  assert (Hw0 : (if existsSync (out w) dir then (Ok tt, w)
                 else (Ok tt, set_out <[dir:=Dir]> w)) = (Ok tt, w0))
    by (unfold w0; now destruct (existsSync (out w) dir)).
  assert (Hdir0 : existsSync (out w0) dir = true).
  { unfold w0. destruct (existsSync (out w) dir) eqn:E; [exact E|].
    unfold existsSync. apply bool_decide_eq_true. cbn [set_out out].
    rewrite lookup_insert_eq. eauto. }
  rewrite Hw0.
  destruct (watermark_loop_step input dir o t1 [t2] [] w0 d1 b1 Ht1 Hn1 Hd1 Hb1 Hdir0 Hwr1)
    as (w1 & Ho1 & ->).
  assert (Hdir1 : existsSync (out w1) dir = true).
  { unfold existsSync in *. apply bool_decide_eq_true. apply bool_decide_eq_true in Hdir0.
    rewrite Ho1. destruct (decide (output_path dir t1 = dir)) as [->|Hne].
    - rewrite lookup_insert_eq. eauto.
    - now rewrite lookup_insert_ne. }
  destruct (watermark_loop_step input dir o t2 [] ([] ++ [output_path dir t1]) w1
              d2 b2 Ht2 Hn2 Hd2 Hb2 Hdir1 Hwr2) as (w2 & Ho2 & ->).
  exists w2. rewrite Hp. split; [reflexivity|]. split; [reflexivity|].
  rewrite Ho2, Hp. apply lookup_insert_eq.
Qed.

End ServiceFacts.

(** ** Appearance options *)

Lemma or_else_falsy x d : falsy x = true -> or_else x d = d.
Proof. unfold or_else. now intros ->. Qed.

Lemma parseInt_absent : is_nan (parseInt Absent) = true.
Proof. reflexivity. Qed.

Lemma parseFloat_absent : is_nan (parseFloat Absent) = true.
Proof. reflexivity. Qed.

Lemma falls_back_falsy parse v :
  is_nan (parse Absent) = true -> (falls_back parse v <-> falsy (parse v) = true).
Proof.
  intros Ha. unfold falls_back, falsy. rewrite orb_true_iff. split.
  - intros [->|[H|H]]; auto.
  - intros [H|H]; auto.
Qed.

Lemma or_else_given parse v d :
  is_nan (parse Absent) = true ->
  (falls_back parse v -> or_else (parse v) d = d)
  /\ (~ falls_back parse v -> or_else (parse v) d = parse v).
Proof.
  intros Ha. pose proof (falls_back_falsy parse v Ha) as H. unfold or_else.
  destruct (falsy (parse v)); split; intros Hf; try reflexivity.
  - exfalso. apply Hf, H. reflexivity.
  - apply H in Hf. discriminate.
Qed.

(** C6, as amended. The default of an appearance field, 30, 55, 0.5, 50
    and 50 in turn, is used exactly for the fields that fall back: those
    that are missing, or do not start with a number, or start with a zero
    number. Every other field is passed on as parsed, whatever its range
    and whatever follows the number. With all five fields missing the
    options are exactly the defaults. *)
Theorem defaults_only_for_fields_that_fall_back b :
  ((falls_back parseInt (body_fontSize b) -> fontSize (parse_options b) = Some 30%float)
   /\ (~ falls_back parseInt (body_fontSize b) ->
       fontSize (parse_options b) = Some (parseInt (body_fontSize b))))
  /\ ((falls_back parseInt (body_angle b) -> angle (parse_options b) = Some 55%float)
      /\ (~ falls_back parseInt (body_angle b) ->
          angle (parse_options b) = Some (parseInt (body_angle b))))
  /\ ((falls_back parseFloat (body_opacity b) ->
       opacity (parse_options b) = Some 0.5%float)
      /\ (~ falls_back parseFloat (body_opacity b) ->
          opacity (parse_options b) = Some (parseFloat (body_opacity b))))
  /\ ((falls_back parseFloat (body_posX b) -> posX (parse_options b) = Some 50%float)
      /\ (~ falls_back parseFloat (body_posX b) ->
          posX (parse_options b) = Some (parseFloat (body_posX b))))
  /\ ((falls_back parseFloat (body_posY b) -> posY (parse_options b) = Some 50%float)
      /\ (~ falls_back parseFloat (body_posY b) ->
          posY (parse_options b) = Some (parseFloat (body_posY b))))
  /\ (body_fontSize b = Absent -> body_angle b = Absent -> body_opacity b = Absent ->
      body_posX b = Absent -> body_posY b = Absent ->
      parse_options b
      = {| fontSize := Some 30%float; angle := Some 55%float;
           opacity := Some 0.5%float; posX := Some 50%float;
           posY := Some 50%float |}).
Proof.
  assert (Hi : forall v d,
            (falls_back parseInt v -> Some (or_else (parseInt v) d) = Some d)
            /\ (~ falls_back parseInt v -> Some (or_else (parseInt v) d) = Some (parseInt v))).
  { intros v d. destruct (or_else_given parseInt v d parseInt_absent) as [H1 H2].
    split; intros H; f_equal; auto. }
  assert (Hf : forall v d,
            (falls_back parseFloat v -> Some (or_else (parseFloat v) d) = Some d)
            /\ (~ falls_back parseFloat v ->
                Some (or_else (parseFloat v) d) = Some (parseFloat v))).
  { intros v d. destruct (or_else_given parseFloat v d parseFloat_absent) as [H1 H2].
    split; intros H; f_equal; auto. }
  split; [apply Hi|]. split; [apply Hi|]. split; [apply Hf|].
  split; [apply Hf|]. split; [apply Hf|].
  intros H1 H2 H3 H4 H5. unfold parse_options.
  rewrite H1, H2, H3, H4, H5. reflexivity.
Qed.

(** C6 fails as worded: values that the data model makes invalid are not
    replaced by the defaults. An opacity of 5, an x of 150 and a y of -20
    are passed on, and of 12abc the 12 is. *)
Lemma invalid_options_are_passed_on :
  parse_options {| watermarks := Text (str "For Alice");
                   body_fontSize := Text (str "12abc");
                   body_angle := Text (str "720");
                   body_opacity := Text (str "5");
                   body_posX := Text (str "150");
                   body_posY := Text (str "-20") |}
  = {| fontSize := Some 12%float; angle := Some 720%float; opacity := Some 5%float;
       posX := Some 150%float; posY := Some (-20)%float |}.
Proof. reflexivity. Qed.

(** Numbers outside the ranges of the data model are not replaced: they
    parse, and what parses to a non-zero number is kept. *)
Example out_of_range_kept :
  opacity (parse_options {| watermarks := Absent; body_fontSize := Text (str "-3");
                            body_angle := Text (str "720");
                            body_opacity := Text (str "5");
                            body_posX := Text (str "150");
                            body_posY := Text (str "-20") |}) = Some 5%float
  /\ posX (parse_options {| watermarks := Absent; body_fontSize := Text (str "-3");
                            body_angle := Text (str "720");
                            body_opacity := Text (str "5");
                            body_posX := Text (str "150");
                            body_posY := Text (str "-20") |}) = Some 150%float
  /\ fontSize (parse_options {| watermarks := Absent; body_fontSize := Text (str "-3");
                                body_angle := Text (str "720");
                                body_opacity := Text (str "5");
                                body_posX := Text (str "150");
                                body_posY := Text (str "-20") |}) = Some (-3)%float.
Proof. repeat split. Qed.

(** C9. Whenever a numeric appearance field parses to zero, the zero is
    dropped and the default of that field is used, as [0 || d] is [d];
    so it is for the texts [0] of all five fields. *)
Theorem zero_falls_back_to_default b :
  (is_zero (parseInt (body_fontSize b)) = true ->
   fontSize (parse_options b) = Some 30%float)
  /\ (is_zero (parseInt (body_angle b)) = true ->
      angle (parse_options b) = Some 55%float)
  /\ (is_zero (parseFloat (body_opacity b)) = true ->
      opacity (parse_options b) = Some 0.5%float)
  /\ (is_zero (parseFloat (body_posX b)) = true ->
      posX (parse_options b) = Some 50%float)
  /\ (is_zero (parseFloat (body_posY b)) = true ->
      posY (parse_options b) = Some 50%float)
  /\ (is_zero (parseInt (Text (str "0"))) = true
      /\ is_zero (parseFloat (Text (str "0"))) = true
      /\ parse_options {| watermarks := watermarks b;
                          body_fontSize := Text (str "0"); body_angle := Text (str "0");
                          body_opacity := Text (str "0"); body_posX := Text (str "0");
                          body_posY := Text (str "0") |}
         = {| fontSize := Some 30%float; angle := Some 55%float;
              opacity := Some 0.5%float; posX := Some 50%float;
              posY := Some 50%float |}).
Proof.
  repeat split;
    try (intros H; simpl; f_equal; apply or_else_falsy; unfold falsy; now rewrite H).
Qed.

(** ** The claims on concrete requests *)

(** A run is its result and the world it leaves. *)
Lemma run_eta {A B : Type} (p : A * B) (a : A) : p.1 = a -> p = (a, p.2).
Proof. destruct p. simpl. now intros ->. Qed.

(** On the double, a short name in an existing directory can be
    written. *)
Lemma fake_writable parses remote_ok fault (dir t : jsstring) :
  parent_of (output_path dir t) = dir ->
  (255 <? length (basename (output_path dir t)))%nat = false ->
  writable (host := fake_host parses remote_ok fault) dir t.
Proof.
  intros Hp Hl present Hpr. cbn [createWriteStream_fault fake_host].
  unfold fake_createWriteStream_fault. now rewrite Hl, Hp, Hpr.
Qed.

Ltac fake_processable :=
  split; [eexists _, _; split; [lazy; reflexivity|reflexivity]
         |apply fake_writable; vm_compute; reflexivity].

(** C3 fails as worded: not every source and not every phrase and
    options give an overlay. On a source of one page the generator throws
    for a phrase in Cyrillic letters, which the font cannot encode, and
    for an opacity of 5; and it throws for a source without pages. *)
Lemma overlay_generator_throws :
  createWatermarkPdf (host := fake_host true true None) [letter]
    [1055; 1088; 1080; 1074; 1077; 1090] given_options
  = Throw (str "WinAnsi cannot encode the text")
  /\ createWatermarkPdf (host := fake_host true true None) [letter] (str "For Alice")
       {| fontSize := Some 30%float; angle := Some 55%float; opacity := Some 5%float;
          posX := Some 50%float; posY := Some 50%float |}
     = Throw (str "`opacity.opacity` must be at least 0 and at most 1")
  /\ createWatermarkPdf (host := fake_host true true None) [] (str "For Alice")
       given_options
     = Throw (str "Cannot read properties of undefined (reading 'getSize')").
Proof. repeat split; reflexivity. Qed.

(** The write can fail: a phrase of 300 letters gets as far as the
    write, which fails on the name, and nothing is started for the phrase
    after it; a call of [applyWatermark] for a directory that is not
    there fails on the write as well. *)
Example write_refusals :
  (processMultipleWatermarks (host := fake_host true true None) [letter]
     [repeat 65 300; str "For Bob"] (str "/srv/app/output/s1") given_options
     empty_world).1
  = Throw (str "ENAMETOOLONG: name too long, open")
  /\ log (processMultipleWatermarks (host := fake_host true true None) [letter]
            [repeat 65 300; str "For Bob"] (str "/srv/app/output/s1") given_options
            empty_world).2
     = [BuildOverlay (repeat 65 300);
        RemoteJob
          {| doc_pages :=
               [ {| page_size := letter;
                    page_content :=
                      [ {| dt_text := repeat 65 300; dt_x := 306%float; dt_y := 396%float;
                           dt_size := 30%float; dt_font := TimesRoman;
                           dt_color := rgb 0.5%float 0.5%float 0.5%float;
                           dt_opacity := 0.5%float; dt_rotate := degrees 55%float |} ] |} ] |}]
  /\ (applyWatermark (host := fake_host true true None) [letter] (str "For Alice")
        (str "/srv/app/output/s1/For_Alice.pdf") given_options empty_world).1
     = Throw (str "ENOENT: no such file or directory, open").
Proof. repeat split; vm_compute; reflexivity. Qed.

(** A request with an opacity of 5 passes validation, and is answered
    500 with the library's message as details. *)
Example out_of_range_opacity_response :
  sent (watermark_route (host := fake_host true true None)
          {| req_file := Some (upload_of (fake_host true true None) "application/pdf"
                                 [letter]);
             req_body := {| watermarks := Text (str "For Alice");
                            body_fontSize := Absent; body_angle := Absent;
                            body_opacity := Text (str "5");
                            body_posX := Absent; body_posY := Absent |} |}
          empty_world)
  = json 500 [(str "error", str "Failed to process watermark request");
              (str "details", str "`opacity.opacity` must be at least 0 and at most 1")].
Proof. vm_compute. reflexivity. Qed.


Lemma createWatermarkPdf_overlay_witness :
  createWatermarkPdf (host := fake_host true true None) [letter; legal] (str "For Alice")
    {| fontSize := Some 30%float; angle := Some 55%float; opacity := Some 0.5%float;
       posX := Some 50%float; posY := Some 25%float |}
  = Ok {| doc_pages :=
            [ {| page_size := {| width := 612%float; height := 1008%float |};
                 page_content :=
                   [ {| dt_text := str "FOR ALICE";
                        dt_x := 306%float;
                        dt_y := 252%float;
                        dt_size := 30%float;
                        dt_font := TimesRoman;
                        dt_color := rgb 0.5%float 0.5%float 0.5%float;
                        dt_opacity := 0.5%float;
                        dt_rotate := degrees 55%float |} ] |} ] |}.
Proof.
  destruct (proj1 (proj2 (createWatermarkPdf_overlay (host := fake_host true true None)
                            [letter; legal] (str "For Alice") 30%float 55%float 0.5%float
                            50%float 25%float)) [letter; legal] eq_refl ltac:(discriminate))
    as (ref & Href & _ & H & _).
  injection Href as <-. rewrite H; reflexivity.
Defined.

Lemma packager_response_witness :
  (exists zipFileName entries,
     sent (handler (host := fake_host true true None)
             (Some (upload_of (fake_host true true None) "application/pdf" [letter]))
             (form_of "For Alice, For Bob") empty_world)
     = {| status := 200;
          headers := [(str "Content-Type", str "application/zip");
                      (str "Content-Disposition",
                       str "attachment; filename=" ++ quote :: zipFileName ++ [quote])];
          body := Piped (Some (Zip entries)) |}
     /\ map fst entries = [str "For_Alice.pdf"; str "For_Bob.pdf"]
     /\ length entries = 2%nat)
  /\ exists bytes,
       sent (handler (host := fake_host true true None)
               (Some (upload_of (fake_host true true None) "application/pdf" [letter]))
               (form_of " For Alice ,") empty_world)
       = {| status := 200;
            headers := [(str "Content-Type", str "application/pdf");
                        (str "Content-Disposition",
                         str "attachment; filename=" ++ quote :: str "For_Alice.pdf"
                           ++ [quote])];
            body := Piped (Some (Raw bytes)) |}.
Proof.
  split.
  - refine (proj2 (packager_response (host := fake_host true true None)
                     (upload_of (fake_host true true None) "application/pdf" [letter])
                     (form_of "For Alice, For Bob") empty_world
                     (str "For Alice, For Bob")
                     [str "/srv/app/output/session_1_zz/For_Alice.pdf";
                      str "/srv/app/output/session_1_zz/For_Bob.pdf"]
                     (processMultipleWatermarks (host := fake_host true true None) [letter]
                        (parse_watermarks (str "For Alice, For Bob"))
                        (session_dir (host := fake_host true true None) empty_world)
                        (parse_options (form_of "For Alice, For Bob"))
                        (in_session empty_world)).2
                     eq_refl _ _) _ eq_refl).
    + discriminate.
    + apply run_eta. vm_compute. reflexivity.
    + simpl. lia.
  - assert (Hne : parse_watermarks (str " For Alice ,") <> []) by discriminate.
    assert (Hrun : processMultipleWatermarks (host := fake_host true true None) [letter]
                     (parse_watermarks (str " For Alice ,"))
                     (session_dir (host := fake_host true true None) empty_world)
                     (parse_options (form_of " For Alice ,"))
                     (in_session empty_world)
                   = (Ok [str "/srv/app/output/session_1_zz/For_Alice.pdf"],
                      (processMultipleWatermarks (host := fake_host true true None) [letter]
                         (parse_watermarks (str " For Alice ,"))
                         (session_dir (host := fake_host true true None) empty_world)
                         (parse_options (form_of " For Alice ,"))
                         (in_session empty_world)).2))
      by (apply run_eta; vm_compute; reflexivity).
    destruct (proj1 (packager_response (host := fake_host true true None)
                       (upload_of (fake_host true true None) "application/pdf" [letter])
                       (form_of " For Alice ,") empty_world
                       (str " For Alice ,") _ _ eq_refl Hne Hrun)
                _ eq_refl) as (bytes & _ & H).
    exists bytes. exact H.
Defined.

Lemma alice_and_bob_archive_witness :
  exists entries,
    body (sent (watermark_route (host := fake_host true true None)
                  (request_of (fake_host true true None) "application/pdf" "For Alice, For Bob" [letter]) empty_world))
    = Piped (Some (Zip entries))
    /\ map fst entries = [str "For_Alice.pdf"; str "For_Bob.pdf"].
Proof.
  apply (alice_and_bob_archive (host := fake_host true true None)
           (request_of (fake_host true true None) "application/pdf" "For Alice, For Bob" [letter])
           (upload_of (fake_host true true None) "application/pdf" [letter]) empty_world
           (str "For Alice, For Bob")).
  - reflexivity.
  - reflexivity.
  - vm_compute. discriminate.
  - reflexivity.
  - reflexivity.
  - apply List.Forall_cons; [fake_processable|].
    apply List.Forall_cons; [fake_processable|apply List.Forall_nil].
  - intros queued. reflexivity.
Defined.

Lemma non_pdf_upload_response_witness :
  status (sent (watermark_route (host := fake_host true true None)
                  (request_of (fake_host true true None) "text/plain" "For Alice" [letter]) empty_world)) = 500
  /\ body (sent (watermark_route (host := fake_host true true None)
                   (request_of (fake_host true true None) "text/plain" "For Alice" [letter]) empty_world))
     = ErrorPage (str "Only PDF files are allowed").
Proof.
  destruct (non_pdf_upload_response (host := fake_host true true None)
              (request_of (fake_host true true None) "text/plain" "For Alice" [letter])
              (upload_of (fake_host true true None) "text/plain" [letter]) empty_world eq_refl
              ltac:(discriminate)) as (-> & _ & _).
  split; reflexivity.
Defined.

(** A remote failure, then a source that does not parse. *)
Lemma processing_error_response_witness :
  (sent (handler (host := fake_host true false None)
           (Some (upload_of (fake_host true false None) "application/pdf" [letter]))
           (form_of "For Alice, For Bob") empty_world)
   = json 500 [(str "error", str "Failed to process watermark request");
               (str "details", str "quota exceeded")]
   /\ out (world_after (handler (host := fake_host true false None)
                          (Some (upload_of (fake_host true false None)
                                   "application/pdf" [letter]))
                          (form_of "For Alice, For Bob") empty_world))
        !! str "/srv/app/output/session_1_zz" = None)
  /\ (sent (handler (host := fake_host false true None)
              (Some (upload_of (fake_host false true None) "application/pdf" [letter]))
              (form_of "For Alice") empty_world)
      = json 500 [(str "error", str "Failed to process watermark request");
                  (str "details", str "Failed to parse PDF document")]
      /\ out (world_after (handler (host := fake_host false true None)
                             (Some (upload_of (fake_host false true None)
                                      "application/pdf" [letter]))
                             (form_of "For Alice") empty_world))
           !! str "/srv/app/output/session_1_zz" = None).
Proof.
  split.
  - assert (Hne : parse_watermarks (str "For Alice, For Bob") <> []) by discriminate.
    assert (Hrun : processMultipleWatermarks (host := fake_host true false None) [letter]
                     (parse_watermarks (str "For Alice, For Bob"))
                     (session_dir (host := fake_host true false None) empty_world)
                     (parse_options (form_of "For Alice, For Bob"))
                     (in_session empty_world)
                   = (Throw (str "quota exceeded"),
                      (processMultipleWatermarks (host := fake_host true false None)
                         [letter]
                         (parse_watermarks (str "For Alice, For Bob"))
                         (session_dir (host := fake_host true false None) empty_world)
                         (parse_options (form_of "For Alice, For Bob"))
                         (in_session empty_world)).2))
      by (apply run_eta; vm_compute; reflexivity).
    destruct (processing_error_response (host := fake_host true false None)
                (upload_of (fake_host true false None) "application/pdf" [letter])
                (form_of "For Alice, For Bob") empty_world
                (str "For Alice, For Bob") _ _ eq_refl Hne Hrun)
      as (Hs & Hgone & _).
    split; [exact Hs|]. apply Hgone. vm_compute. reflexivity.
  - assert (Hne : parse_watermarks (str "For Alice") <> []) by discriminate.
    assert (Hrun : processMultipleWatermarks (host := fake_host false true None) [letter]
                     (parse_watermarks (str "For Alice"))
                     (session_dir (host := fake_host false true None) empty_world)
                     (parse_options (form_of "For Alice"))
                     (in_session empty_world)
                   = (Throw (str "Failed to parse PDF document"),
                      (processMultipleWatermarks (host := fake_host false true None)
                         [letter]
                         (parse_watermarks (str "For Alice"))
                         (session_dir (host := fake_host false true None) empty_world)
                         (parse_options (form_of "For Alice"))
                         (in_session empty_world)).2))
      by (apply run_eta; vm_compute; reflexivity).
    destruct (processing_error_response (host := fake_host false true None)
                (upload_of (fake_host false true None) "application/pdf" [letter])
                (form_of "For Alice") empty_world
                (str "For Alice") _ _ eq_refl Hne Hrun)
      as (Hs & Hgone & _).
    split; [exact Hs|]. apply Hgone. vm_compute. reflexivity.
Defined.

(** C8 fails as stated on a packaging failure: the archiver's error
    listener answers with a body that has no [details]; the session
    directory is still there when [finalize()] does not reject, and the
    body is the same when it does. *)
Lemma packaging_failure_without_details :
  sent (watermark_route (host := fake_host true true (Some (disk_full false)))
          (request_of (fake_host true true (Some (disk_full false))) "application/pdf" "For Alice, For Bob" [letter]) empty_world)
  = json 500 [(str "error", str "Failed to create ZIP archive")]
  /\ out (world_after
            (watermark_route (host := fake_host true true (Some (disk_full false)))
               (request_of (fake_host true true (Some (disk_full false))) "application/pdf" "For Alice, For Bob" [letter]) empty_world))
       !! str "/srv/app/output/session_1_zz" = Some Dir
  /\ sent (watermark_route (host := fake_host true true (Some (disk_full true)))
             (request_of (fake_host true true (Some (disk_full true))) "application/pdf" "For Alice, For Bob" [letter]) empty_world)
     = json 500 [(str "error", str "Failed to create ZIP archive")].
Proof. repeat split; vm_compute; reflexivity. Qed.

Lemma colliding_names_overwrite_witness :
  exists w',
    processMultipleWatermarks (host := fake_host true true None) [letter]
      [str "For Alice"; str "For. Alice"] (str "/srv/app/output/s1")
      given_options empty_world
    = (Ok [str "/srv/app/output/s1/For_Alice.pdf"; str "/srv/app/output/s1/For_Alice.pdf"],
       w')
    /\ out w' !! str "/srv/app/output/s1/For_Alice.pdf" = Some (File (@Raw (fake_host true true None) [letter])).
Proof.
  assert (Hwr : writable (host := fake_host true true None)
                  (str "/srv/app/output/s1") (str "For Alice"))
    by (apply fake_writable; vm_compute; reflexivity).
  destruct (proj2 (colliding_names_overwrite (host := fake_host true true None))
              [letter] (str "/srv/app/output/s1") given_options empty_world
              (str "For Alice") (str "For. Alice") _ _ [letter] [letter]
              eq_refl ltac:(discriminate) eq_refl ltac:(discriminate)
              eq_refl eq_refl eq_refl eq_refl eq_refl Hwr) as (w' & Hrun & _ & Hout).
  exists w'. split; [exact Hrun|exact Hout].
Defined.

(** C10 fails on its example: the name of For.Alice is ForAlice, not
    For_Alice. *)
Lemma for_dot_alice_does_not_collide :
  sanitize (str "For Alice") = str "For_Alice"
  /\ sanitize (str "For.Alice") = str "ForAlice"
  /\ sanitize (str "For Alice") <> sanitize (str "For.Alice").
Proof. repeat split. discriminate. Qed.

Lemma validation_error_response_witness :
  sent (watermark_route (host := fake_host true true None)
          {| req_file := None; req_body := form_of "For Alice" |} empty_world)
  = json 400 [(str "error", str "No PDF file uploaded")]
  /\ sent (watermark_route (host := fake_host true true None)
             (request_of (fake_host true true None) "application/pdf" " , ," [letter])
             empty_world)
     = json 400 [(str "error", str "At least one watermark text is required")].
Proof.
  split.
  - destruct (validation_error_response (host := fake_host true true None)
                {| req_file := None; req_body := form_of "For Alice" |} empty_world
                (or_introl eq_refl)) as ([message Hm] & _).
    rewrite Hm. f_equal. injection Hm as <-. reflexivity.
  - reflexivity.
Defined.

Lemma createWatermarkPdf_no_page_witness :
  createWatermarkPdf (host := fake_host true true None) [] (str "For Alice") given_options
  = Throw (str "Cannot read properties of undefined (reading 'getSize')").
Proof.
  apply (createWatermarkPdf_no_page (host := fake_host true true None) []
           (str "For Alice") given_options eq_refl).
Defined.

(** * Further properties *)

(** ** Joined paths are in normal form *)

Lemma split_no_slash p : Forall no_slash (split slash p).
Proof.
  induction p as [|c r IH]; simpl.
  - repeat constructor.
  - destruct (N.eqb_spec c slash) as [->|Hc].
    + constructor; [constructor|exact IH].
    + destruct (split slash r) as [|h t]; [repeat constructor; exact Hc|].
      inversion IH; subst. constructor; [constructor; assumption|assumption].
Qed.

Lemma dotdot_plain_parts : no_slash dotdot /\ dotdot <> [] /\ dotdot <> dot.
Proof. repeat split; try discriminate. repeat constructor; discriminate. Qed.

Lemma all_dotdot_ok below :
  Forall (fun t => t = dotdot) below -> stack_ok true below.
Proof.
  induction 1 as [|s r -> Hr IH]; [exact I|].
  cbn [stack_ok]. case_decide; [now split|congruence].
Qed.

Lemma stack_ok_below allow s below : stack_ok allow (s :: below) -> stack_ok allow below.
Proof.
  cbn [stack_ok]. case_decide as Hd.
  - intros [-> Hb]. now apply all_dotdot_ok.
  - now intros [_ Hb].
Qed.

Lemma stack_ok_segments allow res :
  stack_ok allow res -> Forall (fun s => no_slash s /\ s <> []) res.
Proof.
  induction res as [|s below IH]; intros H; [constructor|].
  constructor; [|exact (IH (stack_ok_below _ _ _ H))].
  cbn [stack_ok] in H. case_decide as Hs.
  - subst s. split; [apply dotdot_plain_parts|discriminate].
  - destruct H as [(Hn & He & _) _]. now split.
Qed.

Lemma norm_step_ok allow res seg :
  no_slash seg -> stack_ok allow res -> stack_ok allow (norm_step allow res seg).
Proof.
  intros Hseg Hres. unfold norm_step.
  case_decide as H0; [exact Hres|].
  case_decide as H1; [exact Hres|].
  case_decide as H2.
  - subst seg. destruct res as [|top below].
    + destruct allow; [|exact I].
      cbn [stack_ok]. case_decide; [now split|congruence].
    + case_decide as Ht; [|exact (stack_ok_below _ _ _ Hres)].
      destruct allow eqn:Ea; [|exact Hres].
      subst top. cbn [stack_ok] in Hres |- *.
      case_decide; [|congruence]. split; [reflexivity|].
      constructor; [reflexivity|apply Hres].
  - cbn [stack_ok]. case_decide; [contradiction|]. repeat split; assumption.
Qed.

Lemma fold_norm_ok allow l acc :
  Forall no_slash l -> stack_ok allow acc ->
  stack_ok allow (fold_left (norm_step allow) l acc).
Proof.
  intros Hl. revert acc. induction Hl as [|s r Hs _ IH]; intros acc Hacc; simpl.
  - exact Hacc.
  - apply IH. now apply norm_step_ok.
Qed.

(** A kept stack is what normalising its own segments gives. *)
Lemma norm_step_keeps allow s below :
  stack_ok allow (s :: below) -> norm_step allow below s = s :: below.
Proof.
  cbn [stack_ok]. case_decide as Hs.
  - subst s. intros [-> Hb]. unfold norm_step.
    repeat (case_decide; try discriminate; try congruence).
    destruct below as [|top r]; [reflexivity|].
    inversion Hb; subst. case_decide; [reflexivity|congruence].
  - intros [Hp _]. now apply norm_step_plain.
Qed.

Lemma fold_norm_rev allow res :
  stack_ok allow res -> fold_left (norm_step allow) (rev res) [] = res.
Proof.
  induction res as [|s below IH]; intros H; [reflexivity|].
  simpl rev. rewrite fold_left_app. simpl.
  rewrite (IH (stack_ok_below _ _ _ H)). now apply norm_step_keeps.
Qed.

Lemma split_join l :
  l <> [] -> Forall no_slash l -> split slash (join_with slash l) = l.
Proof.
  induction l as [|x r IH]; intros Hne Hl; [contradiction|].
  inversion Hl as [|? ? Hx Hr]; subst.
  destruct r as [|y r']; [now apply split_no_sep|].
  change (join_with slash (x :: y :: r')) with (x ++ slash :: join_with slash (y :: r')).
  rewrite split_app, (split_no_sep x Hx), IH; [reflexivity|discriminate|exact Hr].
Qed.

Lemma join_with_head c x r :
  exists t, join_with slash ((c :: x) :: r) = c :: t.
Proof. destruct r; simpl; eauto. Qed.

Lemma join_with_last l z c :
  List.last (join_with slash (l ++ [z ++ [c]])) 0 = c.
Proof.
  rewrite join_with_snoc. destruct l.
  - apply last_last.
  - rewrite app_comm_cons, app_assoc. apply last_last.
Qed.

Lemma fold_norm_skip allow l acc :
  fold_left (norm_step allow) ([] :: l) acc = fold_left (norm_step allow) l acc.
Proof. reflexivity. Qed.

(** The segments and the two ends of a normalised path. *)
Lemma normalize_shape_fixed (abs tr : bool) res b0 b' :
  stack_ok (negb abs) res ->
  join_with slash (rev res) = b0 :: b' ->
  normalize ((if abs then [slash] else []) ++ (b0 :: b')
             ++ (if tr then [slash] else []))
  = (if abs then [slash] else []) ++ (b0 :: b') ++ (if tr then [slash] else []).
Proof.
  intros Hok Hbody.
  pose proof (stack_ok_segments _ _ Hok) as Hsegs.
  assert (Hrev : Forall (fun s => no_slash s /\ s <> []) (rev res))
    by (apply Forall_rev; exact Hsegs).
  assert (Hns : Forall no_slash (rev res))
    by (eapply List.Forall_impl; [|exact Hrev]; now intros s [H _]).
  assert (Hne : rev res <> []) by (intros E; rewrite E in Hbody; discriminate).
  (* the first unit of the body is not a separator *)
  assert (Hb0 : (b0 =? slash) = false).
  { destruct (rev res) as [|s0 r0]; [contradiction|].
    inversion Hrev as [|? ? [Hs0 Hs0'] _]; subst.
    destruct s0 as [|c0 s0']; [contradiction|].
    destruct (join_with_head c0 s0' r0) as [t Ht]. rewrite Ht in Hbody.
    injection Hbody as <- _. inversion Hs0. now apply N.eqb_neq. }
  (* neither is the last one *)
  assert (Hlast : (List.last (b0 :: b') 0 =? slash) = false).
  { destruct (exists_last Hne) as (l & z & El). rewrite El in Hrev, Hbody.
    apply Forall_app in Hrev. destruct Hrev as [_ Hz].
    inversion Hz as [|? ? [Hz1 Hz2] _]; subst.
    destruct (exists_last Hz2) as (z' & c & ->).
    rewrite <- Hbody, join_with_last.
    apply Forall_app in Hz1. destruct Hz1 as [_ Hc]. inversion Hc. now apply N.eqb_neq. }
  assert (Hsplit : split slash (b0 :: b') = rev res)
    by (rewrite <- Hbody; now apply split_join).
  assert (Hf0 : fold_left (norm_step (negb abs)) (rev res) [] = res)
    by now apply fold_norm_rev.
  assert (Hf1 : fold_left (norm_step (negb abs)) (rev res ++ [[]]) [] = res)
    by (rewrite fold_left_app, Hf0; reflexivity).
  assert (Hs : (slash =? slash) = true) by reflexivity.
  destruct abs, tr; cbn [app].
  - unfold normalize. rewrite Hs.
    replace (List.last (slash :: b0 :: b' ++ [slash]) 0) with slash
      by (symmetry; rewrite !app_comm_cons; apply last_last).
    change (split slash (slash :: b0 :: b' ++ [slash]))
      with ([] :: split slash ((b0 :: b') ++ slash :: [])).
    rewrite split_app, Hsplit, fold_norm_skip.
    change (split slash []) with [@nil N].
    rewrite Hf1, Hbody, Hs. reflexivity.
  - unfold normalize. rewrite Hs, app_nil_r.
    change (List.last (slash :: b0 :: b') 0) with (List.last (b0 :: b') 0).
    rewrite Hlast.
    change (split slash (slash :: b0 :: b')) with ([] :: split slash (b0 :: b')).
    rewrite Hsplit, fold_norm_skip, Hf0, Hbody, app_nil_r. reflexivity.
  - unfold normalize. rewrite Hb0.
    replace (List.last (b0 :: b' ++ [slash]) 0) with slash
      by (symmetry; rewrite !app_comm_cons; apply last_last).
    change (b0 :: b' ++ [slash]) with ((b0 :: b') ++ slash :: []).
    rewrite split_app, Hsplit.
    change (split slash []) with [@nil N].
    rewrite Hf1, Hbody, Hs. reflexivity.
  - unfold normalize. rewrite app_nil_r, Hb0, Hlast, Hsplit, Hf0, Hbody, app_nil_r.
    reflexivity.
Qed.

Lemma normalize_idempotent p : normalize (normalize p) = normalize p.
Proof.
  destruct p as [|c p']; [reflexivity|].
  set (abs := c =? slash). set (tr := List.last (c :: p') 0 =? slash).
  set (res := fold_left (norm_step (negb abs)) (split slash (c :: p')) []).
  assert (Hok : stack_ok (negb abs) res)
    by (apply fold_norm_ok; [apply split_no_slash|exact I]).
  assert (E : normalize (c :: p')
              = match join_with slash (rev res) with
                | [] => if abs then [slash]
                        else if tr then dot ++ [slash] else dot
                | _ => (if abs then [slash] else [])
                       ++ join_with slash (rev res) ++ (if tr then [slash] else [])
                end) by reflexivity.
  rewrite E. destruct (join_with slash (rev res)) as [|b0 b'] eqn:Hbody.
  - destruct abs, tr; reflexivity.
  - now apply (normalize_shape_fixed abs tr res).
Qed.

Lemma path_join_normal args : normalize (path_join args) = path_join args.
Proof.
  unfold path_join. destruct (List.filter _ args); [reflexivity|].
  apply normalize_idempotent.
Qed.

(** Under a directory that ends with a plain segment, normalising keeps a
    plain name joined to it. *)
Lemma normalize_under d n :
  ends_plain d -> plain_name n -> normalize (d ++ slash :: n) = normalize d ++ slash :: n.
Proof.
  intros (x & f & -> & Hx & Hf) Hn.
  pose proof Hf as (Hfs & Hfne & _). pose proof Hn as (Hns & Hnne & _).
  destruct (split_dir_prefix x f Hx Hfs) as [segs Hsegs].
  pose proof (last_plain x f Hf) as Hl1.
  pose proof (last_plain ((x ++ f) ++ [slash]) n Hn) as Hl2.
  rewrite <- app_assoc in Hl2. cbn [app] in Hl2.
  assert (Hsp : split slash ((x ++ f) ++ slash :: n) = (segs ++ [f]) ++ [n])
    by (rewrite split_app, Hsegs, (split_no_sep n Hns); reflexivity).
  destruct (x ++ f) as [|c d'] eqn:Ed.
  { apply app_eq_nil in Ed. destruct Ed as [_ ->]. contradiction. }
  cbn [app] in *. unfold normalize.
  rewrite Hl1, Hl2, Hsegs, Hsp, !fold_left_app. simpl fold_left.
  rewrite !(norm_step_plain _ _ _ Hf), (norm_step_plain _ _ _ Hn).
  set (R := fold_left _ segs []). simpl rev.
  rewrite (join_with_snoc (rev R ++ [f]) n).
  destruct (rev R ++ [f]) as [|s0 l0] eqn:El.
  { apply app_eq_nil in El. destruct El as [_ El]. discriminate. }
  assert (Hb : exists b0 b', join_with slash (s0 :: l0) = b0 :: b').
  { rewrite <- El, join_with_snoc.
    destruct f as [|f0 f']; [contradiction|].
    destruct (rev R); [eauto|]. destruct (join_with slash (l :: l1)); simpl; eauto. }
  destruct Hb as (b0 & b' & Hb). rewrite Hb. cbn [app].
  rewrite !app_nil_r. destruct (c =? slash); cbn [app]; now rewrite <- ?app_assoc.
Qed.

Lemma path_join_under d n :
  ends_plain d -> normalize d = d -> plain_name n -> path_join [d; n] = d ++ slash :: n.
Proof.
  intros Hd Hnorm Hn. pose proof Hn as (_ & Hnne & _).
  pose proof Hd as (x & f & Ed & _ & (_ & Hfne & _)).
  assert (Hdne : d <> []).
  { intros E. rewrite E in Ed. symmetry in Ed. apply app_eq_nil in Ed.
    destruct Ed as [_ Ef]. contradiction. }
  unfold path_join. destruct d as [|c d']; [contradiction|].
  destruct n as [|n0 n']; [contradiction|].
  cbn [List.filter length Nat.eqb negb join_with].
  rewrite (normalize_under (c :: d') (n0 :: n') Hd Hn), Hnorm. reflexivity.
Qed.

(** A plain name joined to any directory gives a path that is in normal
    form and ends with that name. *)
Lemma path_join_ends_plain dir f :
  plain_name f -> ends_plain (path_join [dir; f]) /\ normalize (path_join [dir; f]) = path_join [dir; f].
Proof.
  intros Hf. split; [|apply path_join_normal].
  pose proof Hf as (_ & Hne & _).
  destruct (path_join_file dir f Hne) as (pre & Hp & ->).
  destruct (normalize_keeps_name pre f Hp Hf) as (x & -> & Hx).
  now exists x, f.
Qed.

Lemma starts_with_app pre rest : starts_with pre (pre ++ rest) = true.
Proof. induction pre as [|c r IH]; simpl; [reflexivity|]. now rewrite N.eqb_refl. Qed.

Lemma at_or_below_child d rest : at_or_below d (d ++ slash :: rest) = true.
Proof.
  unfold at_or_below. apply orb_true_iff. right.
  change (d ++ slash :: rest) with (d ++ [slash] ++ rest).
  rewrite app_assoc. apply starts_with_app.
Qed.

Section LifecycleFacts.
Context {host : Host}.

(** ** Where the results are written *)

Lemma session_name_is_plain now rnd :
  no_slash now -> no_slash rnd -> plain_name (str "session_" ++ now ++ str "_" ++ rnd).
Proof.
  intros Hn Hr. change (str "session_") with (115 :: str "ession_").
  repeat split; try discriminate.
  constructor; [discriminate|].
  repeat (apply Forall_app; split); try assumption; repeat constructor; discriminate.
Qed.

Lemma session_dir_normal w :
  session_name_plain w ->
  ends_plain (session_dir w) /\ normalize (session_dir w) = session_dir w.
Proof.
  intros [Hn Hr]. apply path_join_ends_plain. now apply session_name_is_plain.
Qed.

(** X3. The orchestrator cannot be made to write outside the directory
    it is given: whatever the phrase, the file name is made of letters,
    digits and underscores before [.pdf], and the output path is that
    name directly under the directory. *)
Theorem output_path_confined parent f text :
  plain_name f ->
  Forall (fun c => is_alnum c = true \/ c = underscore) (sanitize text)
  /\ output_path (path_join [parent; f]) text
     = path_join [parent; f] ++ slash :: sanitize text ++ str ".pdf"
  /\ at_or_below (path_join [parent; f]) (output_path (path_join [parent; f]) text) = true
  /\ basename (output_path (path_join [parent; f]) text) = sanitize text ++ str ".pdf".
Proof.
  intros Hf. destruct (path_join_ends_plain parent f Hf) as [Hd Hn].
  assert (E : output_path (path_join [parent; f]) text
              = path_join [parent; f] ++ slash :: sanitize text ++ str ".pdf")
    by (apply path_join_under; [exact Hd|exact Hn|apply output_name_plain]).
  split; [apply (sanitize_chars false)|]. split; [exact E|]. split.
  - rewrite E. apply at_or_below_child.
  - apply basename_path_join, output_name_plain.
Qed.

Lemma output_paths_in_session w texts :
  session_name_plain w ->
  Forall (fun p => at_or_below (session_dir w) p = true)
    (map (output_path (session_dir w)) texts).
Proof.
  intros Hw. destruct (session_dir_normal w Hw) as [Hd Hn].
  apply List.Forall_forall. intros p Hp.
  apply in_map_iff in Hp. destruct Hp as (t & <- & _).
  unfold output_path.
  rewrite (path_join_under _ _ Hd Hn (output_name_plain t)). apply at_or_below_child.
Qed.

(** ** The cleanup timer of a response *)

Lemma rmSync_kept (d : jsstring) (store : gmap jsstring node) (p : jsstring) :
  at_or_below d p = false -> rmSync d store !! p = store !! p.
Proof.
  intros H. unfold rmSync. destruct (store !! p) as [v|] eqn:E.
  - apply map_lookup_filter_Some. split; [exact E|exact H].
  - apply map_lookup_filter_None. now left.
Qed.

Lemma starts_with_cancel a x y : starts_with (a ++ x) (a ++ y) = starts_with x y.
Proof. induction a as [|c r IH]; simpl; [reflexivity|]. now rewrite N.eqb_refl. Qed.

Lemma zip_name_is_plain now :
  no_slash now -> plain_name (str "watermarked_pdfs_" ++ now ++ str ".zip").
Proof.
  intros Hn. change (str "watermarked_pdfs_") with (119 :: str "atermarked_pdfs_").
  repeat split; try discriminate.
  constructor; [discriminate|].
  repeat (apply Forall_app; split); try assumption; repeat constructor; discriminate.
Qed.

(** The archive lies beside the session directories, not inside one. *)
Lemma zip_path_outside w w1 :
  session_name_plain w -> no_slash (Date_now (tick w1)) ->
  at_or_below (session_dir w) (zip_path w1) = false.
Proof.
  intros [Hn Hr] Hz. unfold session_dir, zip_path.
  destruct (path_join_ends_plain dirname (str "output")) as [Hd Hnorm].
  { repeat split; try discriminate. repeat constructor; discriminate. }
  rewrite (path_join_under _ _ Hd Hnorm (session_name_is_plain _ _ Hn Hr)).
  rewrite (path_join_under _ _ Hd Hnorm (zip_name_is_plain _ Hz)).
  set (out_dir := path_join [dirname; str "output"]).
  unfold at_or_below. apply orb_false_iff. split.
  - apply bool_decide_eq_false. intros E. apply app_inv_head in E.
    change (str "watermarked_pdfs_") with (119 :: str "atermarked_pdfs_") in E.
    change (str "session_") with (115 :: str "ession_") in E. discriminate.
  - rewrite <- app_assoc, starts_with_cancel.
    change (str "watermarked_pdfs_") with (119 :: str "atermarked_pdfs_").
    change (str "session_") with (115 :: str "ession_"). reflexivity.
Qed.

(** X4. When the cleanup timer of a successful response fires, five
    seconds after the response has been piped, every file the
    orchestrator returned lies in the session directory and is removed
    with it, the archive of a ZIP response is removed as well, and
    nothing else under the output root is touched. *)
Theorem cleanup_timer_removes_session file b w s outputPaths w1 :
  watermarks b = Text s -> parse_watermarks s <> [] ->
  processMultipleWatermarks (buffer file) (parse_watermarks s) (session_dir w)
    (parse_options b) (in_session w) = (Ok outputPaths, w1) ->
  session_name_plain w -> no_slash (Date_now (tick w1)) ->
  archiver_fault (map (fun p => (p, basename p)) outputPaths) = None ->
  exists actions store,
    timers (handler (Some file) b w) = [(5000, actions)]
    /\ run_cleanups actions (out (world_after (handler (Some file) b w))) = Ok store
    /\ Forall (fun p => at_or_below (session_dir w) p = true) outputPaths
    /\ (forall p, at_or_below (session_dir w) p = true -> store !! p = None)
    /\ (forall p, at_or_below (session_dir w) p = false -> p <> zip_path w1 ->
                  store !! p = out w1 !! p)
    /\ ((2 <= length outputPaths)%nat -> store !! zip_path w1 = None).
Proof.
  intros Hw Hne Hrun Hplain Hz Hok.
  rewrite (handler_processing file b w s Hw Hne), Hrun.
  pose proof (processMultipleWatermarks_paths _ _ _ _ _ _ _ Hrun) as Hpaths.
  rewrite parse_watermarks_kept in Hpaths.
  assert (Hin : Forall (fun p => at_or_below (session_dir w) p = true) outputPaths)
    by (rewrite Hpaths; now apply output_paths_in_session).
  destruct outputPaths as [|p1 [|p2 l]].
  - destruct (parse_watermarks s); [contradiction|discriminate].
  - exists [RmRecursive (session_dir w)], (rmSync (session_dir w) (out w1)).
    repeat split; try assumption.
    + intros p Hp. now apply rmSync_gone.
    + intros p Hp _. now apply rmSync_kept.
    + simpl. lia.
  - unfold send_zip, observe. cbv beta iota zeta. rewrite Hok.
    fold (zip_path w1). cbn [timers world_after out set_out].
    pose proof (zip_path_outside w w1 Hplain Hz) as Hout.
    eexists _, _. split; [reflexivity|]. split.
    { cbn [run_cleanups run_cleanup]. unfold unlinkSync.
      rewrite (rmSync_kept _ _ _ Hout), lookup_insert_eq. reflexivity. }
    split; [exact Hin|]. split; [|split].
    + intros p Hp. destruct (decide (p = zip_path w1)) as [->|Hpz].
      * apply lookup_delete_eq.
      * rewrite lookup_delete_ne by congruence. now apply rmSync_gone.
    + intros p Hp Hpz. rewrite lookup_delete_ne by congruence.
      rewrite (rmSync_kept _ _ _ Hp). now rewrite lookup_insert_ne by congruence.
    + intros _. apply lookup_delete_eq.
Qed.

(** ** Temp files *)

Lemma applyWatermark_tmp input text p o w :
  tmp (applyWatermark input text p o w).2
  = delete (temp_watermark_path w)
      (delete (temp_input_path w)
         match createWatermarkPdf input text o with
         | Ok d => <[temp_watermark_path w := File (Saved d)]>
                     (<[temp_input_path w := File (Raw input)]>
                        (ensure_dir temp_dir (tmp w)))
         | Throw _ => ensure_dir temp_dir (tmp w)
         end).
Proof.
  unfold applyWatermark, temp_watermark_path, temp_input_path, ensure_dir, temp_dir.
  unfold mbind, M_bind, mret, M_ret, reading, observe, finally, trace, update, lift.
  destruct (existsSync (tmp w) _); cbn [tmp tick set_tmp set_out fst snd];
    destruct (createWatermarkPdf input text o) as [d|e];
    cbn [tmp tick set_tmp set_out fst snd];
    try destruct (pdfServices input d _) as [b|e];
    cbn [out tmp tick set_tmp set_out fst snd];
    try destruct (createWriteStream_fault _ p) as [e'|];
    reflexivity.
Qed.

Lemma temp_name_is_plain prefix now rnd :
  prefix = str "input_" \/ prefix = str "watermark_" ->
  no_slash now -> no_slash rnd ->
  plain_name (prefix ++ now ++ str "_" ++ rnd ++ str ".pdf").
Proof.
  intros Hp Hn Hr.
  assert (Hh : exists c r, prefix = c :: r /\ c <> slash /\ c <> 46 /\ no_slash r).
  { destruct Hp as [-> | ->]; eexists _, _; (split; [reflexivity|]);
      repeat split; try discriminate; repeat constructor; discriminate. }
  destruct Hh as (c & r & -> & Hc & Hd & Hr').
  repeat split.
  - cbn [app]. constructor; [exact Hc|].
    repeat (apply Forall_app; split); try assumption; repeat constructor; discriminate.
  - discriminate.
  - intros E. injection E as E _. contradiction.
  - intros E. injection E as E _. contradiction.
Qed.

Lemma temp_path_not_dir name : plain_name name -> path_join [temp_dir; name] <> temp_dir.
Proof.
  intros Hn E.
  destruct (path_join_ends_plain dirname (str "temp")) as [Hd Hnorm].
  { repeat split; try discriminate. repeat constructor; discriminate. }
  fold temp_dir in Hd, Hnorm.
  rewrite (path_join_under _ _ Hd Hnorm Hn) in E.
  apply (f_equal (@length N)) in E. rewrite length_app in E. simpl in E. lia.
Qed.

Lemma delete_two_inserted (m : gmap jsstring node) i j a b :
  m !! i = None -> m !! j = None ->
  delete j (delete i (<[j := b]> (<[i := a]> m))) = m.
Proof.
  intros Hi Hj. apply map_eq. intros q.
  destruct (decide (q = j)) as [->|Hqj]; [now rewrite lookup_delete_eq|].
  rewrite lookup_delete_ne by congruence.
  destruct (decide (q = i)) as [->|Hqi]; [now rewrite lookup_delete_eq|].
  rewrite lookup_delete_ne by congruence.
  now rewrite !lookup_insert_ne by congruence.
Qed.

(** X5. A call of [applyWatermark] leaves no temp file behind, whether it
    returns or throws: with names that are fresh, the temp tree is the
    one the call found, with the temp directory made if it was not
    there. *)
Theorem applyWatermark_leaves_no_temp_file input text p o w :
  no_slash (Date_now (tick w)) -> no_slash (Math_random (S (tick w))) ->
  no_slash (Date_now (S (S (tick w)))) ->
  no_slash (Math_random (S (S (S (tick w))))) ->
  tmp w !! temp_input_path w = None -> tmp w !! temp_watermark_path w = None ->
  tmp (applyWatermark input text p o w).2 = ensure_dir temp_dir (tmp w)
  /\ is_Some (tmp (applyWatermark input text p o w).2 !! temp_dir).
Proof.
  intros Hn1 Hr1 Hn2 Hr2 Hi Hw.
  assert (Hi' : ensure_dir temp_dir (tmp w) !! temp_input_path w = None).
  { unfold ensure_dir. destruct (existsSync (tmp w) temp_dir); [exact Hi|].
    rewrite lookup_insert_ne; [exact Hi|]. symmetry.
    apply temp_path_not_dir, temp_name_is_plain; auto. }
  assert (Hw' : ensure_dir temp_dir (tmp w) !! temp_watermark_path w = None).
  { unfold ensure_dir. destruct (existsSync (tmp w) temp_dir); [exact Hw|].
    rewrite lookup_insert_ne; [exact Hw|]. symmetry.
    apply temp_path_not_dir, temp_name_is_plain; auto. }
  assert (E : tmp (applyWatermark input text p o w).2 = ensure_dir temp_dir (tmp w)).
  { rewrite applyWatermark_tmp.
    destruct (createWatermarkPdf input text o) as [d|e].
    - now apply delete_two_inserted.
    - rewrite (delete_id _ _ Hi'). now apply delete_id. }
  split; [exact E|]. rewrite E. unfold ensure_dir, existsSync.
  case_bool_decide as Hd; [exact Hd|]. rewrite lookup_insert_eq. eauto.
Qed.

(** ** The order of the work *)





End LifecycleFacts.

(** ** The periodic sweep *)

Lemma is_plain_spec n : is_plain n = true <-> plain_name n.
Proof.
  unfold is_plain, plain_name, no_slash.
  rewrite !andb_true_iff, !negb_true_iff, !bool_decide_eq_false, forallb_forall.
  rewrite List.Forall_forall. split.
  - intros (((H1 & H2) & H3) & H4). repeat split; try assumption.
    intros c Hc E. apply H2 in Hc. apply negb_true_iff, N.eqb_neq in Hc. contradiction.
  - intros (H2 & H1 & H3 & H4). repeat split; try assumption.
    intros c Hc. apply negb_true_iff, N.eqb_neq. now apply H2.
Qed.

Lemma starts_with_true pre p :
  starts_with pre p = true -> p = pre ++ drop (length pre) p.
Proof.
  revert p. induction pre as [|c r IH]; intros p H; [reflexivity|].
  destruct p as [|b p']; [discriminate|]. simpl in H.
  apply andb_true_iff in H. destruct H as [Hc Hr]. apply N.eqb_eq in Hc. subst b.
  simpl. f_equal. now apply IH.
Qed.

Lemma entry_of_spec dir p n :
  entry_of dir p = Some n <-> p = dir ++ slash :: n /\ plain_name n.
Proof.
  unfold entry_of. split.
  - destruct (starts_with (dir ++ [slash]) p) eqn:Hs; [|discriminate].
    destruct (is_plain _) eqn:Hp; [|discriminate]. intros [= <-].
    apply is_plain_spec in Hp. split; [|exact Hp].
    apply starts_with_true in Hs. rewrite length_app in Hs. simpl in Hs.
    rewrite <- app_assoc in Hs. exact Hs.
  - intros [-> Hn].
    change (dir ++ slash :: n) with (dir ++ [slash] ++ n).
    rewrite app_assoc, starts_with_app.
    replace (length dir + 1)%nat with (length (dir ++ [slash]))
      by (rewrite length_app; reflexivity).
    rewrite drop_app_length. apply is_plain_spec in Hn. now rewrite Hn.
Qed.

Lemma readdirSync_spec (dir : jsstring) (fs : tree) (n : jsstring) :
  n ∈ readdirSync dir fs <-> plain_name n /\ is_Some (fs !! (dir ++ slash :: n)).
Proof.
  unfold readdirSync. rewrite list_elem_of_omap. split.
  - intros (p & Hp & He). apply entry_of_spec in He. destruct He as [-> Hn].
    split; [exact Hn|]. apply list_elem_of_fmap in Hp.
    destruct Hp as ([q st] & Hq & Hin). simpl in Hq. subst q.
    apply elem_of_map_to_list in Hin. eauto.
  - intros [Hn [st Hst]]. exists (dir ++ slash :: n). split.
    + apply list_elem_of_fmap. exists (dir ++ slash :: n, st). split; [reflexivity|].
      now apply elem_of_map_to_list.
    + now apply entry_of_spec.
Qed.

Lemma NoDup_omap_inj {A B} (f : A -> option B) (l : list A) :
  (forall x y z, f x = Some z -> f y = Some z -> x = y) ->
  NoDup l -> NoDup (omap f l).
Proof.
  intros Hinj. induction 1 as [|x l Hx Hl IH]; [constructor|].
  cbn [omap list_omap]. destruct (f x) as [z|] eqn:E; [|exact IH].
  constructor; [|exact IH]. intros Hz. apply list_elem_of_omap in Hz.
  destruct Hz as (y & Hy & Ey). rewrite (Hinj x y z E Ey) in Hx. contradiction.
Qed.

Lemma readdirSync_NoDup (dir : jsstring) (fs : tree) : NoDup (readdirSync dir fs).
Proof.
  apply NoDup_omap_inj; [|apply NoDup_fst_map_to_list].
  intros x y z Hx Hy. apply entry_of_spec in Hx, Hy.
  destruct Hx as [-> _], Hy as [-> _]. reflexivity.
Qed.

(** Two entries of one directory do not contain each other. *)
Lemma entries_apart dir m n :
  plain_name n -> at_or_below (dir ++ slash :: m) (dir ++ slash :: n) = true -> m = n.
Proof.
  intros (Hn & _) H. unfold at_or_below in H. apply orb_true_iff in H.
  destruct H as [H|H].
  - apply bool_decide_eq_true in H. apply app_inv_head in H. now injection H.
  - rewrite <- app_assoc in H. rewrite starts_with_cancel in H.
    cbn [app starts_with] in H. apply andb_true_iff in H. destruct H as [_ H].
    apply starts_with_true in H. rewrite H in Hn.
    apply Forall_app in Hn. destruct Hn as [Hn _].
    apply Forall_app in Hn. destruct Hn as [_ Hn]. inversion Hn. congruence.
Qed.

Lemma at_or_below_refl d : at_or_below d d = true.
Proof. unfold at_or_below. now rewrite bool_decide_eq_true_2. Qed.

Lemma rmTree_lookup (d : jsstring) (fs : tree) (p : jsstring) :
  rmTree d fs !! p = if at_or_below d p then None else fs !! p.
Proof.
  unfold rmTree. destruct (at_or_below d p) eqn:H.
  - apply map_lookup_filter_None. right. intros x _. simpl. rewrite H. discriminate.
  - destruct (fs !! p) as [v|] eqn:E.
    + apply map_lookup_filter_Some. split; [exact E|exact H].
    + apply map_lookup_filter_None. now left.
Qed.

Lemma sweep_entries_inv (now : number) (dir : jsstring) (fs0 : tree)
    (files : list jsstring) :
  ends_plain dir -> normalize dir = dir ->
  forall (cur : tree) (done : list jsstring),
    NoDup files ->
    (forall n : jsstring, n ∈ files ->
        plain_name n /\ is_Some (fs0 !! (dir ++ slash :: n)) /\ n ∉ done) ->
    sweep_inv now dir fs0 cur done ->
    exists swept,
      sweep_inv now dir fs0 (sweep_entries now dir files cur).2 (done ++ swept)
      /\ (forall n : jsstring, n ∈ swept -> n ∈ files)
      /\ match (sweep_entries now dir files cur).1 with
         | Ok _ =>
             swept = files
             /\ forall n : jsstring, n ∈ files ->
                  exists st, fs0 !! (dir ++ slash :: n) = Some (Stat st)
         | Throw _ =>
             exists n : jsstring,
               n ∈ files /\ fs0 !! (dir ++ slash :: n) = Some Dangling
         end.
Proof.
  intros Hd Hnorm. induction files as [|n rest IH]; intros cur done Hnd Hfiles Hinv.
  - exists []. cbn. rewrite app_nil_r. split; [exact Hinv|]. split; [auto|].
    split; [reflexivity|]. intros n Hn. now apply elem_of_nil in Hn.
  - apply NoDup_cons in Hnd. destruct Hnd as [Hn_rest Hnd].
    destruct (Hfiles n) as (Hn & [v Hv] & Hn_done); [left|].
    destruct Hinv as (I1 & I2 & I3).
    set (c := dir ++ slash :: n) in *.
    assert (Hcur : cur !! c = Some v).
    { destruct (cur !! c) as [v'|] eqn:E.
      - rewrite (I1 _ _ E) in Hv. congruence.
      - exfalso. destruct (I2 c (ex_intro _ v Hv) E) as (m & Hm & st' & _ & _ & Hc).
        assert (m = n); [|congruence].
        destruct Hc as [Hc|[_ Hc]].
        + apply app_inv_head in Hc. now injection Hc.
        + now apply (entries_apart dir m n). }
    assert (Hrest : forall n' : jsstring, n' ∈ rest ->
              plain_name n' /\ is_Some (fs0 !! (dir ++ slash :: n')) /\ n' ∉ done ++ [n]).
    { intros n' Hn'. destruct (Hfiles n') as (H1 & H2 & H3); [now right|].
      split; [exact H1|]. split; [exact H2|]. intros Hin. apply elem_of_app in Hin.
      destruct Hin as [Hin|Hin]; [contradiction|].
      apply list_elem_of_singleton in Hin. congruence. }
    cbn [sweep_entries]. unfold sweep_entry, statSync.
    rewrite (path_join_under dir n Hd Hnorm Hn). fold c. rewrite Hcur.
    destruct v as [st|].
    + assert (Hstep : exists cur',
                 (if expired now st
                  then (if isDirectory st then (Ok tt, rmTree c cur)
                        else (Ok tt, delete c cur))
                  else (Ok tt, cur)) = (Ok tt, cur')
                 /\ sweep_inv now dir fs0 cur' (done ++ [n])).
      { destruct (expired now st) eqn:He; [destruct (isDirectory st) eqn:Hdir|].
        - exists (rmTree c cur). split; [reflexivity|]. split; [|split].
          + intros p v. rewrite rmTree_lookup. destruct (at_or_below c p); [discriminate|].
            apply I1.
          + intros p Hp. rewrite rmTree_lookup. destruct (at_or_below c p) eqn:Hb.
            * intros _. exists n. split; [apply elem_of_app; right; now left|].
              exists st. split; [exact Hv|]. split; [exact He|]. right. now split.
            * intros E. destruct (I2 p Hp E) as (m & Hm & Hdoom).
              exists m. split; [apply elem_of_app; now left|exact Hdoom].
          + intros m p Hm Hdoom. rewrite rmTree_lookup.
            destruct (at_or_below c p) eqn:Hb; [reflexivity|].
            apply elem_of_app in Hm. destruct Hm as [Hm|Hm]; [now apply (I3 m)|].
            apply list_elem_of_singleton in Hm. subst m.
            destruct Hdoom as (st' & _ & _ & [-> | [_ Hb']]).
            * rewrite at_or_below_refl in Hb. discriminate.
            * fold c in Hb'. congruence.
        - exists (delete c cur). split; [reflexivity|]. split; [|split].
          + intros p v Hv'. apply lookup_delete_Some in Hv'. apply I1, Hv'.
          + intros p Hp E. apply lookup_delete_None in E. destruct E as [E|E].
            * subst p. exists n. split; [apply elem_of_app; right; now left|].
              exists st. split; [exact Hv|]. split; [exact He|]. now left.
            * destruct (I2 p Hp E) as (m & Hm & Hdoom).
              exists m. split; [apply elem_of_app; now left|exact Hdoom].
          + intros m p Hm Hdoom. apply lookup_delete_None.
            apply elem_of_app in Hm. destruct Hm as [Hm|Hm]; [right; now apply (I3 m)|].
            apply list_elem_of_singleton in Hm. subst m.
            destruct Hdoom as (st' & Hst' & _ & [-> | [Hdir' _]]); [now left|].
            fold c in Hst'. congruence.
        - exists cur. split; [reflexivity|]. split; [|split].
          + exact I1.
          + intros p Hp E. destruct (I2 p Hp E) as (m & Hm & Hdoom).
            exists m. split; [apply elem_of_app; now left|exact Hdoom].
          + intros m p Hm Hdoom.
            apply elem_of_app in Hm. destruct Hm as [Hm|Hm]; [now apply (I3 m)|].
            apply list_elem_of_singleton in Hm. subst m.
            destruct Hdoom as (st' & Hst' & He' & _). fold c in Hst'. congruence. }
      destruct Hstep as (cur' & -> & Hinv').
      destruct (IH cur' (done ++ [n]) Hnd Hrest Hinv') as (swept & Hfin & Hsub & Hend).
      exists (n :: swept). split; [now rewrite <- app_assoc in Hfin|].
      split.
      { intros m Hm. apply elem_of_cons in Hm. destruct Hm as [->|Hm]; [left|right; auto]. }
      destruct (sweep_entries now dir rest cur').1 as [u|e].
      * destruct Hend as [-> Hall]. split; [reflexivity|].
        intros m Hm. apply elem_of_cons in Hm. destruct Hm as [->|Hm]; [eauto|auto].
      * destruct Hend as (m & Hm & Hdang). exists m. split; [now right|exact Hdang].
    + exists []. cbn [fst snd]. rewrite app_nil_r. split; [now split|].
      split; [intros m Hm; now apply elem_of_nil in Hm|].
      exists n. split; [left|exact Hv].
Qed.

(** The sweep of one root: it only removes, what it removes an expired
    entry of the root dooms, and every such thing is removed when it
    gets through; it throws exactly when the root is broken. *)
Lemma sweep_dir_spec (now : number) (dir : jsstring) (fs : tree) :
  ends_plain dir -> normalize dir = dir ->
  (forall p v, (sweep_dir now dir fs).2 !! p = Some v -> fs !! p = Some v)
  /\ (forall p, (sweep_dir now dir fs).2 !! p = None ->
                fs !! p = None \/ doomed now dir fs p)
  /\ (forall u, (sweep_dir now dir fs).1 = Ok u ->
                forall p, doomed now dir fs p -> (sweep_dir now dir fs).2 !! p = None)
  /\ ((exists e, (sweep_dir now dir fs).1 = Throw e) <-> broken dir fs).
Proof.
  intros Hd Hnorm. unfold sweep_dir, doomed, broken, is_directory.
  destruct (fs !! dir) as [[st|]|] eqn:Hroot.
  - destruct (isDirectory st) eqn:Hdir.
    + destruct (sweep_entries_inv now dir fs (readdirSync dir fs) Hd Hnorm fs [])
        as (swept & (I1 & I2 & I3) & Hsub & Hend).
      * apply readdirSync_NoDup.
      * intros n Hn. apply readdirSync_spec in Hn. destruct Hn as [Hn Hs].
        split; [exact Hn|]. split; [exact Hs|]. apply not_elem_of_nil.
      * split; [auto|]. split; [|intros n p Hn; now apply elem_of_nil in Hn].
        intros p [v Hv] E. congruence.
      * cbn [app] in I2, I3.
        split; [exact I1|]. split; [|split].
        -- intros p E. destruct (fs !! p) as [v|] eqn:Ev; [right|now left].
           destruct (I2 p (ex_intro _ v Ev) E) as (n & Hn & Hdoom).
           split; [eauto|]. exists n. split; [|exact Hdoom].
           apply Hsub, readdirSync_spec in Hn. tauto.
        -- intros u Hu p (_ & n & Hn & Hdoom). rewrite Hu in Hend.
           destruct Hend as [-> _]. apply (I3 n); [|exact Hdoom].
           apply readdirSync_spec. split; [exact Hn|].
           destruct Hdoom as (st' & Hst' & _). eauto.
        -- split.
           ++ intros [e He]. rewrite He in Hend. destruct Hend as (n & Hn & Hdang).
              exists st. split; [reflexivity|]. right. exists n. split; [|exact Hdang].
              apply readdirSync_spec in Hn. tauto.
           ++ intros (st' & [= <-] & [Hnd|(n & Hn & Hdang)]); [congruence|].
              destruct (sweep_entries now dir (readdirSync dir fs) fs).1 as [u|e];
                [|eauto].
              destruct Hend as [_ Hall]. destruct (Hall n) as [st'' Hst''].
              ** apply readdirSync_spec. split; [exact Hn|]. eauto.
              ** congruence.
    + cbn [fst snd]. split; [auto|]. split; [auto|]. split; [discriminate|].
      split; [intros _; exists st; auto|eauto].
  - cbn [fst snd]. split; [auto|]. split; [auto|]. split.
    + intros u _ p ((st & Hst & _) & _). discriminate.
    + split; [intros [e He]; discriminate|intros (st & Hst & _); discriminate].
  - cbn [fst snd]. split; [auto|]. split; [auto|]. split.
    + intros u _ p ((st & Hst & _) & _). discriminate.
    + split; [intros [e He]; discriminate|intros (st & Hst & _); discriminate].
Qed.

(** What a directory contributes to a joined path does not depend on the
    name joined to it. *)
Lemma normalize_keeps_names pre :
  dir_prefix pre ->
  exists x, dir_prefix x /\ forall f, plain_name f -> normalize (pre ++ f) = x ++ f.
Proof.
  intros Hpre.
  assert (Hone : forall f, plain_name f -> split slash f = [f] /\ exists c r, f = c :: r /\ (c =? slash) = false).
  { intros f (Hs & Hne & _). split; [now apply split_no_sep|].
    destruct f as [|c r]; [contradiction|]. exists c, r. split; [reflexivity|].
    inversion Hs. now apply N.eqb_neq. }
  destruct Hpre as [->|[q ->]].
  - exists []. split; [now left|]. intros f Hf.
    destruct (Hone f Hf) as (Hsp & c & r & -> & Hc).
    pose proof (last_plain [] (c :: r) Hf) as Hl. cbn [app] in Hl |- *.
    unfold normalize. rewrite Hc, Hl, Hsp. simpl fold_left.
    rewrite (norm_step_plain _ _ _ Hf). cbn [rev app join_with]. now rewrite app_nil_r.
  - destruct (q ++ [slash]) as [|c0 q'] eqn:Eq.
    { apply app_eq_nil in Eq. destruct Eq as [_ Eq]. discriminate. }
    set (R := fold_left (norm_step (negb (c0 =? slash))) (split slash q) []).
    exists ((if c0 =? slash then [slash] else [])
            ++ match rev R with [] => [] | _ => join_with slash (rev R) ++ [slash] end).
    split.
    { destruct (rev R) as [|s0 l0].
      - destruct (c0 =? slash); [right; now exists []|now left].
      - right. exists ((if c0 =? slash then [slash] else []) ++ join_with slash (s0 :: l0)).
        now rewrite <- app_assoc. }
    intros f Hf. pose proof Hf as (Hs & Hne & _).
    pose proof (last_plain (c0 :: q') f Hf) as Hl.
    assert (Hsp : split slash ((c0 :: q') ++ f) = split slash q ++ [f]).
    { rewrite <- Eq, <- app_assoc. cbn [app]. now rewrite split_app, (split_no_sep f Hs). }
    cbn [app] in Hl, Hsp |- *. unfold normalize.
    rewrite Hl, Hsp, fold_left_app. simpl fold_left. fold R.
    rewrite (norm_step_plain _ _ _ Hf). simpl rev. rewrite join_with_snoc.
    destruct f as [|f0 f']; [contradiction|].
    destruct (rev R) as [|s0 l0].
    + rewrite !app_nil_r. reflexivity.
    + assert (Hb : exists b0 b', join_with slash (s0 :: l0) ++ slash :: f0 :: f' = b0 :: b').
      { destruct (join_with slash (s0 :: l0)); simpl; eauto. }
      destruct Hb as (b0 & b' & Hb). rewrite Hb, <- Hb.
      rewrite app_nil_r, <- !app_assoc. reflexivity.
Qed.

Lemma path_join_siblings dir f g :
  plain_name f -> plain_name g ->
  exists x, path_join [dir; f] = x ++ f /\ path_join [dir; g] = x ++ g.
Proof.
  intros Hf Hg.
  assert (Hpre : exists pre, dir_prefix pre
                   /\ forall h, plain_name h -> path_join [dir; h] = normalize (pre ++ h)).
  { destruct dir as [|d0 dir'].
    - exists []. split; [now left|]. intros h (_ & Hne & _).
      destruct h; [contradiction|reflexivity].
    - exists ((d0 :: dir') ++ [slash]). split; [right; eauto|].
      intros h (_ & Hne & _). destruct h; [contradiction|].
      unfold path_join. cbn [List.filter length Nat.eqb negb join_with].
      now rewrite <- app_assoc. }
  destruct Hpre as (pre & Hp & Hj).
  destruct (normalize_keeps_names pre Hp) as (x & _ & Hx).
  exists x. now rewrite !Hj, !Hx.
Qed.

Lemma at_or_below_trans a b c :
  at_or_below a b = true -> at_or_below b c = true -> at_or_below a c = true.
Proof.
  unfold at_or_below. rewrite !orb_true_iff, !bool_decide_eq_true.
  intros [->|Hab] [->|Hbc]; auto.
  right. apply starts_with_true in Hab, Hbc.
  set (r1 := drop (length (a ++ [slash])) b) in Hab.
  set (r2 := drop (length (b ++ [slash])) c) in Hbc.
  rewrite Hbc. pattern b at 1. rewrite Hab.
  rewrite <- !app_assoc. rewrite (app_assoc a). apply starts_with_app.
Qed.

(** A path lies at or below at most one entry of a directory. *)
Lemma under_one_entry dir m n p :
  plain_name m -> plain_name n ->
  at_or_below (dir ++ slash :: m) p = true ->
  at_or_below (dir ++ slash :: n) p = true -> m = n.
Proof.
  assert (Hshape : forall k, at_or_below (dir ++ slash :: k) p = true ->
            exists r, p = dir ++ slash :: k ++ r /\ (r = [] \/ exists r', r = slash :: r')).
  { intros k H. unfold at_or_below in H. apply orb_true_iff in H. destruct H as [H|H].
    - apply bool_decide_eq_true in H. exists []. rewrite app_nil_r. auto.
    - apply starts_with_true in H. rewrite <- !app_assoc in H. cbn [app] in H.
      eexists. split; [exact H|]. right. eauto. }
  intros (Hm & _) (Hn & _) H1 H2.
  destruct (Hshape m H1) as (r1 & E1 & Hr1). destruct (Hshape n H2) as (r2 & E2 & Hr2).
  rewrite E1 in E2. apply app_inv_head in E2. injection E2 as E2.
  rewrite <- (until_slash_app m r1 Hm Hr1), E2. now apply until_slash_app.
Qed.

Section SweepFacts.
Context {host : Host}.

Lemma output_name_is_plain : plain_name (str "output").
Proof.
  split; [|split; [|split]]; try discriminate.
  unfold no_slash. repeat constructor; discriminate.
Qed.

Lemma uploads_name_is_plain : plain_name (str "uploads").
Proof.
  split; [|split; [|split]]; try discriminate.
  unfold no_slash. repeat constructor; discriminate.
Qed.

Lemma below_shape (d p : jsstring) :
  at_or_below d p = true -> exists r, p = d ++ r.
Proof.
  unfold at_or_below. rewrite orb_true_iff, bool_decide_eq_true. intros [->|H].
  - exists []. now rewrite app_nil_r.
  - apply starts_with_true in H. rewrite <- app_assoc in H. eauto.
Qed.

(** Nothing lies below both an entry of the output root and an entry
    of the uploads root. *)
Lemma roots_apart m n p :
  at_or_below (path_join [dirname; str "output"] ++ slash :: m) p = true ->
  at_or_below (path_join [dirname; str "uploads"] ++ slash :: n) p = true -> False.
Proof.
  destruct (path_join_siblings dirname (str "output") (str "uploads")
              output_name_is_plain uploads_name_is_plain) as (x & -> & ->).
  intros H1 H2. apply below_shape in H1, H2.
  destruct H1 as [r1 E1]. destruct H2 as [r2 E2]. rewrite E1 in E2.
  rewrite <- !app_assoc in E2. apply app_inv_head in E2. discriminate.
Qed.

Lemma doomed_below now dir fs n p :
  doomed_by now dir fs n p -> at_or_below (dir ++ slash :: n) p = true.
Proof. intros (st & _ & _ & [->|[_ H]]); [apply at_or_below_refl|exact H]. Qed.

(** What lies at or below an entry of the uploads root is as it was
    once the output root has been swept, and so is the uploads root. *)
Lemma uploads_untouched (now : number) (fs : tree) :
  let fs1 := (sweep_dir now (path_join [dirname; str "output"]) fs).2 in
  fs1 !! path_join [dirname; str "uploads"] = fs !! path_join [dirname; str "uploads"]
  /\ forall n q,
      at_or_below (path_join [dirname; str "uploads"] ++ slash :: n) q = true ->
      fs1 !! q = fs !! q.
Proof.
  intros fs1.
  destruct (path_join_ends_plain dirname (str "output") output_name_is_plain) as [HO HOn].
  destruct (sweep_dir_spec now _ fs HO HOn) as (S1 & R1 & _).
  fold fs1 in S1, R1.
  assert (Hsame : forall q, (forall m, plain_name m ->
                     at_or_below (path_join [dirname; str "output"] ++ slash :: m) q = true ->
                     False) -> fs1 !! q = fs !! q).
  { intros q Hq. destruct (fs1 !! q) as [v|] eqn:E; [symmetry; now apply S1|].
    apply R1 in E. destruct E as [E|(_ & m & Hm & Hdoom)]; [now symmetry|].
    apply doomed_below in Hdoom. destruct (Hq m Hm Hdoom). }
  split.
  - apply Hsame. intros m _ Hm. apply below_shape in Hm. destruct Hm as [r Er].
    destruct (path_join_siblings dirname (str "output") (str "uploads")
                output_name_is_plain uploads_name_is_plain) as (x & Ea & Eb).
    rewrite Ea, Eb in Er. rewrite <- !app_assoc in Er.
    apply app_inv_head in Er. discriminate.
  - intros n q Hq. apply Hsame. intros m _ Hm. exact (roots_apart m n q Hm Hq).
Qed.

Lemma cleanupOldFiles_spec (now : number) (fs : tree) :
  let O := path_join [dirname; str "output"] in
  let U := path_join [dirname; str "uploads"] in
  (forall p v, (cleanupOldFiles now fs).2 !! p = Some v -> fs !! p = Some v)
  /\ (forall p, (cleanupOldFiles now fs).2 !! p = None ->
                fs !! p = None \/ doomed now O fs p \/ doomed now U fs p)
  /\ (forall u, (cleanupOldFiles now fs).1 = Ok u ->
                forall p, doomed now O fs p \/ doomed now U fs p ->
                          (cleanupOldFiles now fs).2 !! p = None)
  /\ ((exists e, (cleanupOldFiles now fs).1 = Throw e) <-> broken O fs \/ broken U fs)
  /\ (broken O fs ->
      forall p, (cleanupOldFiles now fs).2 !! p = None ->
                fs !! p = None \/ doomed now O fs p).
Proof.
  intros O U.
  destruct (path_join_ends_plain dirname (str "output") output_name_is_plain) as [HO HOn].
  destruct (path_join_ends_plain dirname (str "uploads") uploads_name_is_plain) as [HU HUn].
  fold O in HO, HOn. fold U in HU, HUn.
  destruct (sweep_dir_spec now O fs HO HOn) as (S1 & R1 & D1 & B1).
  destruct (uploads_untouched now fs) as [Hroot Hbelow]. fold O U in Hroot, Hbelow.
  unfold cleanupOldFiles. fold O U.
  destruct (sweep_dir now O fs) as [[u1|e1] fs1] eqn:E1; cbn [fst snd] in *.
  - destruct (sweep_dir_spec now U fs1 HU HUn) as (S2 & R2 & D2 & B2).
    assert (HnotO : ~ broken O fs).
    { intros Hb. apply B1 in Hb. destruct Hb as [e He]. discriminate. }
    assert (Hdoom : forall p, doomed now U fs1 p <-> doomed now U fs p).
    { intros p. unfold doomed, doomed_by, is_directory. rewrite Hroot. split.
      - intros (Hr & n & Hn & st & Hst & He & Hp).
        split; [exact Hr|]. exists n. split; [exact Hn|]. exists st.
        rewrite <- (Hbelow n _ (at_or_below_refl _)). auto.
      - intros (Hr & n & Hn & st & Hst & He & Hp).
        split; [exact Hr|]. exists n. split; [exact Hn|]. exists st.
        rewrite (Hbelow n _ (at_or_below_refl _)). auto. }
    assert (Hbroken : broken U fs1 <-> broken U fs).
    { unfold broken. rewrite Hroot. split.
      - intros (st & Hst & [Hd|(n & Hn & Hdang)]); exists st; (split; [exact Hst|]);
          [now left|]. right. exists n. split; [exact Hn|].
        now rewrite <- (Hbelow n _ (at_or_below_refl _)).
      - intros (st & Hst & [Hd|(n & Hn & Hdang)]); exists st; (split; [exact Hst|]);
          [now left|]. right. exists n. split; [exact Hn|].
        now rewrite (Hbelow n _ (at_or_below_refl _)). }
    split; [intros p v Hv; auto|]. split; [|split; [|split]].
    + intros p E. apply R2 in E. destruct E as [E|E].
      * apply R1 in E. tauto.
      * apply Hdoom in E. tauto.
    + intros u Hu p [Hp|Hp].
      * destruct ((sweep_dir now U fs1).2 !! p) as [v|] eqn:Ev; [|reflexivity].
        apply S2 in Ev. rewrite (D1 u1 eq_refl p Hp) in Ev. discriminate.
      * apply (D2 u Hu). apply Hdoom. tauto.
    + rewrite B2, Hbroken. tauto.
    + intros Hb. contradiction.
  - assert (HbO : broken O fs) by (apply B1; eauto).
    split; [exact S1|]. split; [|split; [|split]].
    + intros p E. apply R1 in E. tauto.
    + discriminate.
    + split; [auto|eauto].
    + intros _. exact R1.
Qed.

(** X7.  The periodic sweep has no [try]: it throws exactly when one of
    its two roots is broken, that is, is there without being a directory
    or holds an entry that cannot be followed, and when the output root
    is broken the uploads root is not swept at all. Whether it throws
    or not, it adds and changes nothing, and removes only what an expired
    immediate entry of a root dooms: the entry itself and, when it is a
    directory, everything below it. When it returns, it has removed all
    of that. *)
Theorem cleanupOldFiles_removes_expired_entries (now : number) (fs : tree) :
  let O := path_join [dirname; str "output"] in
  let U := path_join [dirname; str "uploads"] in
  (forall p v, (cleanupOldFiles now fs).2 !! p = Some v -> fs !! p = Some v)
  /\ (forall p, (cleanupOldFiles now fs).2 !! p = None ->
                fs !! p = None \/ doomed now O fs p \/ doomed now U fs p)
  /\ (forall u, (cleanupOldFiles now fs).1 = Ok u ->
                forall p, doomed now O fs p \/ doomed now U fs p ->
                          (cleanupOldFiles now fs).2 !! p = None)
  /\ ((exists e, (cleanupOldFiles now fs).1 = Throw e) <-> broken O fs \/ broken U fs)
  /\ (broken O fs ->
      forall p, (cleanupOldFiles now fs).2 !! p = None ->
                fs !! p = None \/ doomed now O fs p).
Proof. exact (cleanupOldFiles_spec now fs). Qed.

(** X8.  The sweep looks at the age of the immediate entries only: an
    entry of either root that has not expired shields everything at or
    below it, whatever the age of the files it holds, and whether the
    sweep gets through or throws. *)
Theorem unexpired_entry_shields_its_contents (now : number) (fs fs' : tree)
    (root n : jsstring) (stats : Stats) (p : jsstring) (r : result unit) :
  root = path_join [dirname; str "output"] \/ root = path_join [dirname; str "uploads"] ->
  plain_name n ->
  fs !! (root ++ slash :: n) = Some (Stat stats) ->
  expired now stats = false ->
  at_or_below (root ++ slash :: n) p = true ->
  cleanupOldFiles now fs = (r, fs') ->
  fs' !! p = fs !! p.
Proof.
  intros Hroot Hn Hst Hfresh Hp Hrun.
  destruct (cleanupOldFiles_spec now fs) as (S & R & _).
  rewrite Hrun in S, R. cbn [snd] in S, R.
  destruct (fs' !! p) as [v|] eqn:E; [symmetry; now apply S|].
  apply R in E. destruct E as [E|E]; [now symmetry|]. exfalso.
  assert (Hsame : forall m, plain_name m -> doomed_by now root fs m p -> False).
  { intros m Hm Hd. pose proof (doomed_below _ _ _ _ _ Hd) as Hb.
    pose proof (under_one_entry root m n p Hm Hn Hb Hp) as ->.
    destruct Hd as (st & Hst' & Hex & _). congruence. }
  destruct Hroot as [-> | ->]; destruct E as [(_ & m & Hm & Hd)|(_ & m & Hm & Hd)].
  - exact (Hsame m Hm Hd).
  - apply doomed_below in Hd. exact (roots_apart n m p Hp Hd).
  - apply doomed_below in Hd. exact (roots_apart m n p Hd Hp).
  - exact (Hsame m Hm Hd).
Qed.

End SweepFacts.

(** ** The further properties on concrete requests and trees *)

Ltac no_slash_by_computation :=
  vm_compute; repeat first [apply List.Forall_nil | apply List.Forall_cons; [discriminate|]].

Lemma output_path_confined_witness :
  plain_name (str "session_1_zz")
  /\ output_path (path_join [str "/srv/app/output"; str "session_1_zz"]) (str "../../etc/passwd")
     = path_join [str "/srv/app/output"; str "session_1_zz"]
         ++ slash :: sanitize (str "../../etc/passwd") ++ str ".pdf"
  /\ basename (output_path (path_join [str "/srv/app/output"; str "session_1_zz"])
                 (str "../../etc/passwd"))
     = sanitize (str "../../etc/passwd") ++ str ".pdf".
Proof.
  assert (H : plain_name (str "session_1_zz")).
  { split; [no_slash_by_computation|]. split; [|split]; discriminate. }
  split; [exact H|].
  destruct (output_path_confined (str "/srv/app/output") (str "session_1_zz")
              (str "../../etc/passwd") H) as (_ & H1 & _ & H2).
  split; [exact H1|exact H2].
Defined.

Lemma cleanup_timer_removes_session_witness :
  exists actions store,
    timers (handler (host := fake_host true true None)
              (Some (upload_of (fake_host true true None) "application/pdf" [letter]))
              (form_of "For Alice, For Bob") empty_world)
    = [(5000, actions)]
    /\ run_cleanups actions
         (out (world_after (handler (host := fake_host true true None)
                 (Some (upload_of (fake_host true true None) "application/pdf" [letter]))
                 (form_of "For Alice, For Bob") empty_world)))
       = Ok store
    /\ store !! str "/srv/app/output/session_1_zz/For_Alice.pdf" = None
    /\ store !! str "/srv/app/output/session_1_zz" = None.
Proof.
  assert (Hne : parse_watermarks (str "For Alice, For Bob") <> []) by discriminate.
  assert (Hrun : processMultipleWatermarks (host := fake_host true true None) [letter]
                   (parse_watermarks (str "For Alice, For Bob"))
                   (session_dir (host := fake_host true true None) empty_world)
                   (parse_options (form_of "For Alice, For Bob"))
                   (in_session empty_world)
                 = (Ok [str "/srv/app/output/session_1_zz/For_Alice.pdf";
                        str "/srv/app/output/session_1_zz/For_Bob.pdf"],
                    (processMultipleWatermarks (host := fake_host true true None) [letter]
                       (parse_watermarks (str "For Alice, For Bob"))
                       (session_dir (host := fake_host true true None) empty_world)
                       (parse_options (form_of "For Alice, For Bob"))
                       (in_session empty_world)).2))
    by (apply run_eta; vm_compute; reflexivity).
  assert (Hs : session_name_plain (host := fake_host true true None) empty_world).
  { split; no_slash_by_computation. }
  assert (Hz : no_slash (Date_now (Host := fake_host true true None)
                 (tick (processMultipleWatermarks (host := fake_host true true None) [letter]
                          (parse_watermarks (str "For Alice, For Bob"))
                          (session_dir (host := fake_host true true None) empty_world)
                          (parse_options (form_of "For Alice, For Bob"))
                          (in_session empty_world)).2))).
  { no_slash_by_computation. }
  destruct (cleanup_timer_removes_session (host := fake_host true true None)
              (upload_of (fake_host true true None) "application/pdf" [letter])
              (form_of "For Alice, For Bob") empty_world
              (str "For Alice, For Bob") _ _ eq_refl Hne Hrun Hs Hz eq_refl)
    as (actions & store & Ht & Hr & _ & Hgone & _).
  exists actions, store. split; [exact Ht|]. split; [exact Hr|].
  split; apply Hgone; vm_compute; reflexivity.
Defined.

Lemma applyWatermark_leaves_no_temp_file_witness :
  tmp (applyWatermark (host := fake_host true true None) [letter] (str "For Alice")
         (str "/srv/app/output/s1/For_Alice.pdf") given_options empty_world).2
  = ensure_dir (temp_dir (host := fake_host true true None)) (tmp (empty_world (host := fake_host true true None)))
  /\ is_Some (tmp (applyWatermark (host := fake_host true true None) [letter]
                     (str "For Alice") (str "/srv/app/output/s1/For_Alice.pdf")
                     given_options empty_world).2
              !! temp_dir (host := fake_host true true None)).
Proof.
  apply (applyWatermark_leaves_no_temp_file (host := fake_host true true None)).
  1-4: no_slash_by_computation.
  all: reflexivity.
Defined.

Lemma unexpired_entry_shields_its_contents_witness :
  expired 3601000 {| isDirectory := true; mtimeMs := 1000 |} = false
  /\ expired 3601000 {| isDirectory := false; mtimeMs := 0 |} = true
  /\ (cleanupOldFiles (host := fake_host true true None) 3601000 swept_tree).2
       !! str "/srv/app/output/session_1_zz/For_Alice.pdf"
     = Some (Stat {| isDirectory := false; mtimeMs := 0 |}).
Proof.
  split; [reflexivity|]. split; [reflexivity|].
  assert (Hn : plain_name (str "session_1_zz")).
  { split; [no_slash_by_computation|]. split; [|split]; discriminate. }
  rewrite (unexpired_entry_shields_its_contents (host := fake_host true true None)
             3601000 swept_tree _ (str "/srv/app/output") (str "session_1_zz")
             {| isDirectory := true; mtimeMs := 1000 |}
             (str "/srv/app/output/session_1_zz/For_Alice.pdf") _
             (or_introl eq_refl) Hn eq_refl eq_refl eq_refl
             (surjective_pairing _)).
  reflexivity.
Defined.

(** A link under the output root whose target is gone: the sweep
    throws, and the upload that is older than the hour stays. *)
Lemma cleanupOldFiles_removes_expired_entries_witness :
  (exists e, (cleanupOldFiles (host := fake_host true true None) 3601000
                tree_with_dangling_link).1 = Throw e)
  /\ is_Some ((cleanupOldFiles (host := fake_host true true None) 3601000
                 tree_with_dangling_link).2 !! str "/srv/app/uploads/old.pdf").
Proof.
  destruct (cleanupOldFiles_removes_expired_entries (host := fake_host true true None)
              3601000 tree_with_dangling_link) as (_ & _ & _ & Hthrow & Hrest).
  assert (Hb : broken (str "/srv/app/output") tree_with_dangling_link).
  { exists {| isDirectory := true; mtimeMs := 0 |}. split; [reflexivity|]. right.
    exists (str "latest"). split; [|reflexivity].
    split; [no_slash_by_computation|]. split; [|split]; discriminate. }
  split; [apply Hthrow; now left|].
  destruct ((cleanupOldFiles (host := fake_host true true None) 3601000
               tree_with_dangling_link).2 !! str "/srv/app/uploads/old.pdf") as [v|] eqn:E;
    [eauto|].
  exfalso. destruct (Hrest Hb _ E) as [H|(_ & n & _ & st & _ & _ & Hp)].
  - discriminate.
  - assert (Hs : exists r, str "/srv/app/uploads/old.pdf" = str "/srv/app/output" ++ r).
    { destruct Hp as [-> | [_ Hp]]; [eauto|].
      unfold at_or_below in Hp. apply orb_true_iff in Hp. destruct Hp as [Hp|Hp].
      - apply bool_decide_eq_true in Hp. rewrite Hp. eauto.
      - apply starts_with_true in Hp.
        change (path_join [dirname; str "output"]) with (str "/srv/app/output") in Hp.
        rewrite <- !app_assoc in Hp. eauto. }
    destruct Hs as [r Hr]. discriminate.
Defined.


(** ** The client and the server together *)

Lemma trimStart_nil s : trimStart s = [] -> Forall (fun c => is_space c = true) s.
Proof.
  induction s as [|c r IH]; simpl; [constructor|].
  destruct (is_space c) eqn:E; [|discriminate]. intros H. constructor; auto.
Qed.

Lemma trim_nil s : trim s = [] -> Forall (fun c => is_space c = true) s.
Proof.
  unfold trim, trimEnd. intros H.
  apply (f_equal (@rev N)) in H. rewrite rev_involutive in H. simpl in H.
  apply trimStart_nil, Forall_rev in H. rewrite rev_involutive in H.
  pose proof (trimStart_head_ok s) as Hh.
  destruct (trimStart s) as [|c r] eqn:E; [now apply trimStart_nil|].
  inversion H; subst. simpl in Hh. congruence.
Qed.

Lemma split_spaces s : Forall (fun c => is_space c = true) s -> split comma s = [s].
Proof.
  induction 1 as [|c r Hc _ IH]; simpl; [reflexivity|].
  destruct (c =? comma) eqn:E; [|now rewrite IH].
  apply N.eqb_eq in E. subst c. discriminate.
Qed.

Lemma count_kept (l : list jsstring) :
  length (List.filter (fun w => match trim w with [] => false | _ => true end) l)
  = length (List.filter (fun w : jsstring => (0 <? length w)%nat) (map trim l)).
Proof.
  induction l as [|w l IH]; simpl; [reflexivity|].
  destruct (trim w); simpl; now rewrite IH.
Qed.

Lemma group_then_quote_name name :
  name <> [] -> Forall (fun c => is_line_terminator c = false) name ->
  group_then_quote (name ++ [quote]) = Some name.
Proof.
  intros Hne H. induction H as [|c r Hc Hr IH]; [contradiction|].
  cbn [app group_then_quote]. rewrite Hc. destruct r as [|c' r'].
  - reflexivity.
  - now rewrite IH.
Qed.

Lemma match_filename_skip pre s :
  Forall (fun c => c <> 102) pre -> match_filename (pre ++ s) = match_filename s.
Proof.
  induction 1 as [|c r Hc _ IH]; [reflexivity|].
  cbn [app match_filename].
  change (str "filename=" ++ [quote]) with (102 :: (str "ilename=" ++ [quote])).
  cbn [starts_with]. apply N.eqb_neq in Hc. rewrite N.eqb_sym in Hc. now rewrite Hc.
Qed.

(** The header the server writes gives the name back, whatever the name
    holds besides line terminators. *)
Lemma match_filename_header name :
  name <> [] -> Forall (fun c => is_line_terminator c = false) name ->
  match_filename (str "attachment; filename=" ++ quote :: name ++ [quote]) = Some name.
Proof.
  intros Hne H.
  change (str "attachment; filename=" ++ quote :: name ++ [quote])
    with (str "attachment; " ++ 102 :: (str "ilename=" ++ [quote]) ++ name ++ [quote]).
  rewrite match_filename_skip by (repeat constructor; discriminate).
  cbn [match_filename].
  change (str "filename=" ++ [quote]) with (102 :: (str "ilename=" ++ [quote])).
  change (102 :: (str "ilename=" ++ [quote]) ++ name ++ [quote])
    with ((102 :: (str "ilename=" ++ [quote])) ++ name ++ [quote]).
  rewrite starts_with_app.
  change (drop 10 ((102 :: (str "ilename=" ++ [quote])) ++ name ++ [quote]))
    with (name ++ [quote]).
  now rewrite group_then_quote_name.
Qed.

Section ClientFacts.
Context {host : Host} {browser : Browser}.

Lemma filename_of_header name :
  name <> [] -> Forall (fun c => is_line_terminator c = false) name ->
  App.filename_of (Some (str "attachment; filename=" ++ quote :: name ++ [quote])) = name.
Proof.
  intros Hne H. unfold App.filename_of.
  change (str "attachment; filename=" ++ quote :: name ++ [quote])
    with (97 :: (str "ttachment; filename=" ++ quote :: name ++ [quote])).
  cbv beta iota.
  change (97 :: (str "ttachment; filename=" ++ quote :: name ++ [quote]))
    with (str "attachment; filename=" ++ quote :: name ++ [quote]).
  now rewrite match_filename_header.
Qed.

Lemma headers_get_disposition code v1 v2 (b : payload) :
  App.headers_get (str "Content-Disposition")
    {| status := code;
       headers := [(str "Content-Type", v1); (str "Content-Disposition", v2)];
       body := b |} = Some v2.
Proof. reflexivity. Qed.

Lemma sanitized_name_one_line text :
  sanitize text ++ str ".pdf" <> []
  /\ Forall (fun c => is_line_terminator c = false) (sanitize text ++ str ".pdf").
Proof.
  split.
  - intros E. apply app_eq_nil in E. destruct E as [_ E]. discriminate.
  - apply Forall_app. split.
    + eapply List.Forall_impl; [|apply (sanitize_chars false)]. intros c [Hc | ->].
      * destruct (is_line_terminator c) eqn:E; [|reflexivity]. exfalso.
        unfold is_line_terminator in E. rewrite !orb_true_iff, !N.eqb_eq in E.
        destruct E as [[[-> | ->] | ->] | ->]; discriminate.
      * reflexivity.
    + repeat constructor.
Qed.

Lemma after_fetch_attachment (st : App.state) v1 name (b : payload) :
  name <> [] -> Forall (fun c => is_line_terminator c = false) name ->
  App.after_fetch
    (App.Answered
       {| status := 200;
          headers := [(str "Content-Type", v1);
                      (str "Content-Disposition",
                       str "attachment; filename=" ++ quote :: name ++ [quote])];
          body := b |}) st
  = (App.setIsProcessing false st, Some {| App.href := b; App.download_name := name |}).
Proof.
  intros Hne H. unfold App.after_fetch, App.ok. cbn [status body].
  change ((200 <=? 200) && (200 <=? 299)) with true. cbn [negb].
  now rewrite headers_get_disposition, filename_of_header.
Qed.

Lemma handleSubmit_keeps_file fetch (st : App.state) :
  App.file (App.handleSubmit fetch st).1 = App.file st.
Proof.
  unfold App.handleSubmit. destruct (App.guard st) as [r|m]; [|reflexivity].
  unfold App.after_fetch. destruct (fetch r) as [resp|m]; [|reflexivity].
  destruct (negb (App.ok resp)); [|reflexivity].
  destruct (App.response_json resp); reflexivity.
Qed.

Lemma step_keeps_pdf (st : App.state) (a : App.action) :
  (forall f, App.file st = Some f -> App.type f = str "application/pdf") ->
  forall f, App.file (App.step st a) = Some f -> App.type f = str "application/pdf".
Proof.
  intros Hst f. destruct a; cbn [App.step]; try exact (Hst f).
  - unfold App.handleDrag. repeat case_match; exact (Hst f).
  - unfold App.handleDrop, App.take_file. destruct (App.first_file files) as [g|]; [|exact (Hst f)].
    case_bool_decide as Hg; [|exact (Hst f)]. cbn. intros E. injection E as <-. exact Hg.
  - unfold App.handleFileChange, App.take_file. destruct (App.first_file files) as [g|]; [|exact (Hst f)].
    case_bool_decide as Hg; [|exact (Hst f)]. cbn. intros E. injection E as <-. exact Hg.
  - discriminate.
  - rewrite handleSubmit_keeps_file. exact (Hst f).
Qed.

Lemma run_keeps_pdf (actions : list App.action) (st : App.state) :
  (forall f, App.file st = Some f -> App.type f = str "application/pdf") ->
  forall f, App.file (App.run actions st) = Some f -> App.type f = str "application/pdf".
Proof.
  revert st. induction actions as [|a rest IH]; intros st Hst; [exact Hst|].
  cbn [App.run fold_left]. apply IH. now apply step_keeps_pdf.
Qed.

(** X9.  The count the page shows beside the text area, and on which it
    announces a ZIP, is the number of phrases the server keeps; a text
    the server keeps a phrase of passes the guard of the page, but not
    the other way round: a lone comma passes the guard and leaves the
    server no phrase. *)
Theorem watermarkCount_is_the_server_count (st : App.state) :
  App.watermarkCount st = length (parse_watermarks (App.watermarks st))
  /\ (parse_watermarks (App.watermarks st) <> [] -> trim (App.watermarks st) <> [])
  /\ (trim [comma] <> [] /\ parse_watermarks [comma] = []).
Proof.
  split; [apply count_kept|]. split; [|split; [discriminate|reflexivity]].
  intros Hne E. apply Hne. unfold parse_watermarks.
  rewrite split_spaces by now apply trim_nil. cbn [map]. now rewrite E.
Qed.

(** X10.  The download is saved under the name the server gave the
    file, and the blob is the body of the answer: for a single watermark
    the sanitised phrase with [.pdf] and the file at the output path, for
    an archive the name of the ZIP and the archive of the output paths
    under their base names. *)
Theorem download_keeps_server_name (st : App.state) (sessionOutputDir outputDir : jsstring)
    (w : world) :
  (forall text,
     App.after_fetch
       (App.Answered (sent (send_single sessionOutputDir (output_path outputDir text) w))) st
     = (App.setIsProcessing false st,
        Some {| App.href := Piped (read (out w) (output_path outputDir text));
                App.download_name := sanitize text ++ str ".pdf" |}))
  /\ (forall outputPaths,
        archiver_fault (map (fun p => (p, basename p)) outputPaths) = None ->
        Forall (fun c => is_line_terminator c = false) (Date_now (tick w)) ->
        body (sent (send_zip outputDir sessionOutputDir outputPaths w))
        = Piped (Some (Zip (map (fun p => (basename p, read (out w) p)) outputPaths)))
        /\ App.after_fetch
             (App.Answered (sent (send_zip outputDir sessionOutputDir outputPaths w))) st
           = (App.setIsProcessing false st,
              Some {| App.href :=
                        body (sent (send_zip outputDir sessionOutputDir outputPaths w));
                      App.download_name :=
                        str "watermarked_pdfs_" ++ Date_now (tick w) ++ str ".zip" |})).
Proof.
  split.
  - intros text. unfold send_single. cbn [sent].
    assert (E : basename (output_path outputDir text) = sanitize text ++ str ".pdf")
      by apply (basename_path_join outputDir _ (output_name_plain text)).
    rewrite E. apply after_fetch_attachment; apply sanitized_name_one_line.
  - intros outputPaths Hfault Hnow. unfold send_zip, observe. cbv beta iota zeta.
    cbn [out]. rewrite Hfault. cbn [sent body set_out out]. unfold read at 1 3.
    rewrite lookup_insert_eq. split; [reflexivity|]. apply after_fetch_attachment.
    + discriminate.
    + change (str "watermarked_pdfs_") with (119 :: str "atermarked_pdfs_").
      cbn [app]. constructor; [reflexivity|]. apply Forall_app. split; [repeat constructor|].
      apply Forall_app. split; [exact Hnow|repeat constructor].
Qed.

(** X11.  Whatever the user does, the page holds no file or a file of
    type [application/pdf]; so a request that leaves the page carries a
    part the upload filter lets through and a text that is a non-empty
    string: of the answers of the route, the page cannot draw the filter's
    error page, nor the two first validation errors. *)
Theorem client_sends_only_pdf (actions : list App.action) (r : request) :
  App.guard (App.run actions App.initial) = Ok r ->
  exists f c s,
    req_file r = Some f /\ mimetype f = str "application/pdf" /\ fileFilter f = Ok true
    /\ watermarks (req_body r) = Text (c :: s) /\ trim (c :: s) <> []
    /\ (upload_single r = Ok (Some f) \/ upload_single r = Throw (str "File too large")).
Proof.
  intros H. unfold App.guard in H.
  pose proof (run_keeps_pdf actions App.initial ltac:(discriminate)) as Hpdf.
  destruct (App.file (App.run actions App.initial)) as [g|] eqn:Eg; [|discriminate].
  specialize (Hpdf g eq_refl).
  destruct (trim (App.watermarks (App.run actions App.initial))) as [|t0 t] eqn:Et;
    [discriminate|].
  injection H as <-. unfold App.formData, multipart. rewrite Hpdf.
  destruct (App.watermarks (App.run actions App.initial)) as [|c s] eqn:Ew; [discriminate|].
  eexists _, c, s. cbn [req_file req_body watermarks mimetype].
  split; [reflexivity|]. split; [reflexivity|]. split; [reflexivity|].
  split; [reflexivity|]. split; [rewrite Et; discriminate|].
  unfold upload_single. cbn [req_file]. change (fileFilter _) with (@Ok bool true) at 1.
  cbn [buffer]. destruct (fileSize_limit <? byteLength (App.bytes g)); [now right|now left].
Qed.

(** X12.  Of a failed request the page shows the [error] member of the
    JSON answer and nothing else: the [details] of a processing failure
    never reach the user, and the error page of a refused upload is
    reported as whatever the browser says of a body that is not JSON. *)
Theorem client_shows_error_not_details (st : App.state) (sessionOutputDir message : jsstring)
    (w : world) :
  App.after_fetch (App.Answered (sent (on_error sessionOutputDir message w))) st
  = (App.setIsProcessing false
       (App.setError (str "Failed to process watermark request") st), None)
  /\ App.after_fetch (App.Answered (finalhandler message)) st
     = (App.setIsProcessing false
          (App.setError
             (or_text (Some (SyntaxError_message (ErrorPage message)))
                (str "An error occurred while processing your request")) st), None).
Proof. split; reflexivity. Qed.

End ClientFacts.

Section EndToEnd.
Context {host : Host} {browser : Browser}.

(** X13.  The guard of the page is weaker than the validation of the
    server: a text that is not blank but holds no phrase, commas and
    white space only, is sent with the file, answered 400 by the handler,
    and the page shows the handler's message and downloads nothing. *)
Theorem phraseless_text_is_refused_by_the_server (st : App.state) (f : App.DOMFile)
    (w : world) :
  App.file st = Some f -> App.type f = str "application/pdf" ->
  byteLength (App.bytes f) <= fileSize_limit ->
  trim (App.watermarks st) <> [] -> parse_watermarks (App.watermarks st) = [] ->
  let after := App.handleSubmit (fun r => App.Answered (sent (watermark_route r w))) st in
  App.error after.1 = str "At least one watermark text is required"
  /\ after.2 = None
  /\ App.isProcessing after.1 = false
  /\ App.file after.1 = Some f.
Proof.
  intros Hfile Htype Hsize Htrim Hparse after. subst after.
  unfold App.handleSubmit, App.guard. rewrite Hfile.
  destruct (trim (App.watermarks st)) as [|t0 t] eqn:Et; [contradiction|].
  destruct (App.watermarks st) as [|c s] eqn:Ew; [discriminate|].
  unfold App.formData, multipart, watermark_route, upload_single, fileFilter.
  cbn [req_file req_body mimetype buffer]. rewrite Htype, Ew.
  change (match str "application/pdf" with [] => _ | t1 :: t2 => t1 :: t2 end)
    with (str "application/pdf").
  rewrite decide_True by reflexivity.
  apply N.ltb_ge in Hsize. rewrite Hsize.
  unfold handler, observe. cbv beta iota zeta. cbn [watermarks]. rewrite Hparse.
  cbn [reply sent]. repeat split. cbn. exact Hfile.
Qed.

(** X14.  A PDF over the size limit never reaches the handler either:
    the upload middleware's error goes to the framework, which answers
    500 with its HTML page and leaves the world as it was; the page, which
    expects JSON, reports what the browser says of such a body. *)
Theorem oversized_upload_response (r : request) (file : upload) (w : world) (st : App.state) :
  req_file r = Some file -> mimetype file = str "application/pdf" ->
  fileSize_limit < byteLength (buffer file) ->
  sent (watermark_route r w) = finalhandler (str "File too large")
  /\ world_after (watermark_route r w) = w
  /\ timers (watermark_route r w) = []
  /\ App.after_fetch (App.Answered (sent (watermark_route r w))) st
     = (App.setIsProcessing false
          (App.setError
             (or_text (Some (SyntaxError_message (ErrorPage (str "File too large"))))
                (str "An error occurred while processing your request")) st), None).
Proof.
  intros Hf Hm Hsize. unfold watermark_route, upload_single, fileFilter.
  rewrite Hf, Hm. rewrite decide_True by reflexivity.
  apply N.ltb_lt in Hsize. rewrite Hsize. repeat split.
Qed.

End EndToEnd.

(** ** The client on concrete pages *)

Lemma client_sends_only_pdf_witness :
  exists r f c s,
    App.guard (host := fake_host true true None) (browser := fake_browser _)
      (App.run (browser := fake_browser _) [App.Drop (Some [ notes_txt ]);
                App.Change (Some [ report_pdf ]);
                App.Type_watermarks (str "For Alice, For Bob")] App.initial) = Ok r
    /\ req_file r = Some f /\ mimetype f = str "application/pdf"
    /\ watermarks (req_body r) = Text (c :: s).
Proof.
  destruct (client_sends_only_pdf (host := fake_host true true None)
              (browser := fake_browser _)
              [App.Drop (Some [ notes_txt ]);
               App.Change (Some [ report_pdf ]);
               App.Type_watermarks (str "For Alice, For Bob")]
              _ eq_refl) as (f & c & s & H1 & H2 & _ & H3 & _).
  eexists _, f, c, s. split; [reflexivity|]. split; [exact H1|]. split; [exact H2|exact H3].
Defined.

Lemma phraseless_text_is_refused_by_the_server_witness :
  App.error
    (App.handleSubmit (host := fake_host true true None) (browser := fake_browser _)
       (fun r => App.Answered (sent (watermark_route r empty_world)))
       (App.run (browser := fake_browser _) [App.Change (Some [ report_pdf ]);
                 App.Type_watermarks (str " , ,")] App.initial)).1
  = str "At least one watermark text is required".
Proof.
  set (st := App.run _ _).
  refine (proj1 (phraseless_text_is_refused_by_the_server
                   (host := fake_host true true None) (browser := fake_browser _)
                   st report_pdf empty_world
                   eq_refl eq_refl _ _ eq_refl)).
  - vm_compute. discriminate.
  - discriminate.
Defined.

Lemma oversized_upload_response_witness :
  sent (watermark_route (host := sized_host)
          {| req_file := Some {| mimetype := str "application/pdf";
                                 buffer := (50 * 1024 * 1024 + 1 : @Buffer sized_host) |};
             req_body := form_of "For Alice" |} empty_world)
  = finalhandler (str "File too large").
Proof.
  refine (proj1 (oversized_upload_response (host := sized_host) (browser := fake_browser _)
                   {| req_file := Some {| mimetype := str "application/pdf";
                                          buffer := (50 * 1024 * 1024 + 1
                                                     : @Buffer sized_host) |};
                      req_body := form_of "For Alice" |}
                   {| mimetype := str "application/pdf";
                        buffer := (50 * 1024 * 1024 + 1 : @Buffer sized_host) |}
                   empty_world App.initial eq_refl eq_refl _)).
  reflexivity.
Defined.

Section RoundTrip.
Context {host : Host} {browser : Browser}.

Lemma kept_phrase_passes_guard s : parse_watermarks s <> [] -> trim s <> [].
Proof.
  intros Hne E. apply Hne. unfold parse_watermarks.
  rewrite split_spaces by now apply trim_nil. cbn [map]. now rewrite E.
Qed.

(** X15.  One phrase, end to end, when its overlay is built, the remote
    service composites it and the result can be written in the session
    directory: the page sends the PDF and the text, the route lets the
    request through, the orchestrator does that work, the handler pipes
    the result, and the page saves exactly what the remote service
    returned, under the sanitised phrase with [.pdf], with no error
    shown. *)
Theorem single_phrase_round_trip (st : App.state) (f : App.DOMFile) (w : world)
    (t : jsstring) (d : document) (b : Buffer) :
  App.file st = Some f -> App.type f = str "application/pdf" ->
  byteLength (App.bytes f) <= fileSize_limit ->
  parse_watermarks (App.watermarks st) = [t] ->
  createWatermarkPdf (App.bytes f) t (parse_options (req_body (App.formData f st))) = Ok d ->
  pdfServices (App.bytes f) d job_appearance = Ok b ->
  writable (session_dir w) t ->
  let after := App.handleSubmit (fun r => App.Answered (sent (watermark_route r w))) st in
  after.2 = Some {| App.href := Piped (Some (Raw b));
                    App.download_name := sanitize t ++ str ".pdf" |}
  /\ App.error after.1 = []
  /\ App.isProcessing after.1 = false.
Proof.
  intros Hfile Htype Hsize Hparse Hd Hb Hwr after. subst after.
  assert (Hne : parse_watermarks (App.watermarks st) <> []) by (rewrite Hparse; discriminate).
  pose proof (kept_phrase_passes_guard _ Hne) as Htrim.
  destruct (parse_watermarks_trimmed (App.watermarks st) t) as [Ht Htne];
    [rewrite Hparse; now left|].
  unfold App.handleSubmit, App.guard. rewrite Hfile.
  destruct (trim (App.watermarks st)) as [|t0 t1] eqn:Et; [contradiction|].
  set (file := {| mimetype := str "application/pdf"; buffer := App.bytes f |}).
  assert (Hreq : req_file (App.formData f st) = Some file).
  { unfold App.formData, multipart. cbn [req_file]. rewrite Htype. reflexivity. }
  assert (Hw : watermarks (req_body (App.formData f st)) = Text (App.watermarks st))
    by reflexivity.
  rewrite (route_accepts (App.formData f st) file w Hreq eq_refl Hsize).
  rewrite (handler_processing file _ w _ Hw Hne). rewrite Hparse.
  cbn [buffer file].
  set (o := parse_options (req_body (App.formData f st))) in *.
  set (dir := session_dir w).
  assert (Hrun : exists w1,
             processMultipleWatermarks (App.bytes f) [t] dir o (in_session w)
             = (Ok [output_path dir t], w1)
             /\ out w1 !! output_path dir t = Some (File (Raw b))).
  { unfold processMultipleWatermarks, mbind, M_bind.
    destruct (existsSync (out (in_session w)) dir) eqn:Hdir.
    - destruct (watermark_loop_step (App.bytes f) dir o t [] [] (in_session w) d b
                  Ht Htne Hd Hb Hdir Hwr) as (w1 & Hout & Hstep).
      exists w1. rewrite Hstep. split; [reflexivity|]. rewrite Hout. apply lookup_insert_eq.
    - assert (Hdir' : existsSync (out (set_out <[dir := Dir]> (in_session w))) dir = true).
      { unfold existsSync. apply bool_decide_eq_true. cbn [set_out out].
        rewrite lookup_insert_eq. eauto. }
      destruct (watermark_loop_step (App.bytes f) dir o t [] []
                  (set_out <[dir := Dir]> (in_session w)) d b
                  Ht Htne Hd Hb Hdir' Hwr) as (w1 & Hout & Hstep).
      exists w1. rewrite Hstep. split; [reflexivity|]. rewrite Hout. apply lookup_insert_eq. }
  destruct Hrun as (w1 & -> & Hout).
  unfold send_single. cbn [sent].
  assert (E : basename (output_path dir t) = sanitize t ++ str ".pdf")
    by apply (basename_path_join dir _ (output_name_plain t)).
  rewrite E. unfold read. rewrite Hout.
  rewrite after_fetch_attachment by apply sanitized_name_one_line.
  repeat split.
Qed.

End RoundTrip.

Lemma single_phrase_round_trip_witness :
  (App.handleSubmit (host := fake_host true true None) (browser := fake_browser _)
     (fun r => App.Answered (sent (watermark_route r empty_world)))
     (App.run (browser := fake_browser _)
        [App.Drop (Some [report_pdf]); App.Type_watermarks (str " For Alice ,")]
        App.initial)).2
  = Some {| App.href := Piped (Some (Raw ([letter] : @Buffer (fake_host true true None))));
            App.download_name := str "For_Alice.pdf" |}.
Proof.
  set (st := App.run _ _).
  destruct (createWatermarkPdf (host := fake_host true true None) [letter] (str "For Alice")
              (parse_options (req_body (App.formData (browser := fake_browser _)
                                          report_pdf st)))) as [d|e] eqn:Ed;
    [|vm_compute in Ed; discriminate].
  assert (Hsize : byteLength (Host := fake_host true true None) (App.bytes report_pdf)
                  <= fileSize_limit) by (vm_compute; discriminate).
  assert (Hwr : writable (host := fake_host true true None)
                  (session_dir (host := fake_host true true None) empty_world)
                  (str "For Alice"))
    by (apply fake_writable; vm_compute; reflexivity).
  exact (proj1 (single_phrase_round_trip (host := fake_host true true None)
                  (browser := fake_browser _) st report_pdf empty_world
                  (str "For Alice") d [letter] eq_refl eq_refl Hsize eq_refl Ed eq_refl
                  Hwr)).
Defined.
